(** * ADGM corporate agent: red-flag rules, checklist and reviewed documents

  A shallow embedding of [adgm_checklist.py], [docx_utils.py] and the
  batch loops of [app.py], with the properties of the pipeline proved
  over it.

  Text is [string]: a sequence of characters with code points below 256,
  on which [PyStr] follows Python's [str] methods.  Dictionaries with a
  fixed set of keys are records; [ADGM_CITATIONS] is a finite map.
  Exceptions are the left summand of a result type, and the files of the
  working directory are a finite map from path to document. *)

From Stdlib Require Import Ascii.
From Stdlib Require String DecimalString DecimalNat.
From stdpp Require Import gmap strings list sets.

Set Default Proof Using "Type".
#[local] Set Warnings "-clear-no-such-hyp".

(** ** Python [str] operations used by the sources *)

Module PyStr.

(** The newline character of ["\n".join(...)]. *)
Definition nl : string := String "010"%char EmptyString.

(** [c.isspace()] for a one-character string. *)
Definition isspace (c : ascii) : bool :=
  let n := nat_of_ascii c in
  (9 <=? n) && (n <=? 13) || (28 <=? n) && (n <=? 32)
  || (n =? 133) || (n =? 160).

(** [c.lower()] for a one-character string. *)
Definition lower_char (c : ascii) : ascii :=
  let n := nat_of_ascii c in
  if (65 <=? n) && (n <=? 90)
     || (192 <=? n) && (n <=? 222) && negb (n =? 215)
  then ascii_of_nat (n + 32)
  else c.

(** [s.lower()] *)
Fixpoint lower (s : string) : string :=
  match s with
  | EmptyString => EmptyString
  | String c s' => String (lower_char c) (lower s')
  end.

(** [needle in hay] *)
Fixpoint contains (needle hay : string) : bool :=
  String.prefix needle hay
  || match hay with
     | EmptyString => false
     | String _ hay' => contains needle hay'
     end.

(** [s.lstrip()], [s.rstrip()], [s.strip()] *)
Fixpoint lstrip (s : string) : string :=
  match s with
  | EmptyString => EmptyString
  | String c s' => if isspace c then lstrip s' else s
  end.

Fixpoint rstrip (s : string) : string :=
  match s with
  | EmptyString => EmptyString
  | String c s' =>
      match rstrip s' with
      | EmptyString => if isspace c then EmptyString else String c EmptyString
      | r => String c r
      end
  end.

Definition strip (s : string) : string := rstrip (lstrip s).

(** [s.split()]: the maximal runs of non-space characters; [w] is the
    word being read. *)
Fixpoint split_from (w s : string) : list string :=
  match s with
  | EmptyString => match w with EmptyString => [] | _ => [w] end
  | String c s' =>
      if isspace c
      then match w with
           | EmptyString => split_from EmptyString s'
           | _ => w :: split_from EmptyString s'
           end
      else split_from (w +:+ String c EmptyString) s'
  end.

Definition split (s : string) : list string := split_from EmptyString s.

(** [sep.join(l)] *)
Definition join (sep : string) (l : list string) : string :=
  String.concat sep l.

(** [l[-n:]] for a positive [n] *)
Definition last_n {A} (n : nat) (l : list A) : list A :=
  drop (length l - n) l.

(** [str(n)] for a natural number *)
Definition str_of_nat (n : nat) : string :=
  DecimalString.NilEmpty.string_of_uint (Nat.to_uint n).

End PyStr.

(** ** adgm_checklist.py *)

Module adgm_checklist.
Import PyStr.

Definition COMPANY_INCORPORATION_CHECKLIST : list string :=
  [ "Articles of Association";
    "Memorandum of Association";
    "Board Resolution Template";
    "Incorporation Application Form";
    "Register of Members and Directors";
    "UBO Declaration Form" ].

Definition ADGM_CITATIONS : gmap string string :=
  list_to_map
    [ ("companies_regulation_jurisdiction",
       "ADGM Companies Regulations 2020, Art. 6");
      ("ubo_regulation", "ADGM UBO Rules (example placeholder)") ].

(** [A or B and C] parses as [A or (B and C)]. *)
Definition detect_doc_type_by_text (text : string) : string :=
  let txt := lower text in
  if contains "articles of association" txt
     || contains "article" txt && contains "association" txt
  then "Articles of Association"
  else if contains "memorandum of association" txt || contains "memorandum" txt
  then "Memorandum of Association"
  else if contains "board resolution" txt
  then "Board Resolution Template"
  else if contains "register of members" txt || contains "register of directors" txt
  then "Register of Members and Directors"
  else if contains "ubo" txt || contains "ultimate beneficial owner" txt
  then "UBO Declaration Form"
  else if contains "application for incorporation" txt
          || contains "incorporation application" txt
  then "Incorporation Application Form"
  else if contains "agreement" txt
  then "Commercial Agreement"
  else "Unknown".

(** The dictionaries the rule functions return: the keys ["issue"],
    ["severity"] and ["suggestion"] are always set, ["citation_key"] only
    by the jurisdiction rule. *)
Record RuleIssue := mkRuleIssue {
  issue : string;
  severity : string;
  citation_key : option string;
  suggestion : string
}.

Definition federal_courts_issue : RuleIssue :=
  {| issue := "References UAE Federal Courts instead of ADGM jurisdiction.";
     severity := "High";
     citation_key := Some "companies_regulation_jurisdiction";
     suggestion := "Replace jurisdiction clause to reference ADGM Courts/Jurisdiction." |}.

Definition no_adgm_issue : RuleIssue :=
  {| issue := "Jurisdiction clause does not explicitly reference ADGM.";
     severity := "Medium";
     citation_key := Some "companies_regulation_jurisdiction";
     suggestion := "Update jurisdiction/governing law clause to specify 'ADGM'." |}.

Definition check_jurisdiction_paragraph (paragraph_text : string) : list RuleIssue :=
  let lower := lower paragraph_text in
  let issues := [] in
  let issues :=
    if contains "u.a.e federal courts" lower || contains "federal courts of the uae" lower
    then issues ++ [federal_courts_issue]
    else issues in
  let issues :=
    if negb (contains "adgm" lower)
       && (contains "jurisdiction" lower || contains "governing law" lower)
    then issues ++ [no_adgm_issue]
    else issues in
  issues.

Definition missing_signature_issue : RuleIssue :=
  {| issue := "No signature block or signatory section detected near end of document.";
     severity := "High";
     citation_key := None;
     suggestion := "Add signatory block with name, designation and date." |}.

Definition detect_missing_signature (paragraphs : list string) : list RuleIssue :=
  let joined := lower (join nl (last_n 10 paragraphs)) in
  if negb (contains "signature" joined)
     && negb (contains "signed" joined)
     && negb (contains "authorized signatory" joined)
  then [missing_signature_issue]
  else [].

Definition ambig_markers : list string :=
  [ "may"; "best efforts"; "endeavour to"; "possibly"; "subject to";
    "to the extent possible" ].

Definition ambiguous_issue (marker : string) : RuleIssue :=
  {| issue := "Ambiguous/non-binding language found ('" +:+ marker +:+ "')";
     severity := "Low";
     citation_key := None;
     suggestion := "Consider replacing ambiguous phrasing with clear, binding obligations." |}.

(** The [for marker in ambig_markers] loop, returning at the first hit. *)
Fixpoint ambiguous_loop (markers : list string) (lower : string) : list RuleIssue :=
  match markers with
  | [] => []
  | marker :: rest =>
      if contains marker lower && bool_decide (length (split lower) < 200)
      then [ambiguous_issue marker]
      else ambiguous_loop rest lower
  end.

Definition detect_ambiguous_language (paragraph_text : string) : list RuleIssue :=
  let lower := lower paragraph_text in
  ambiguous_loop ambig_markers lower.

End adgm_checklist.

(** ** The document library as the sources use it *)

Module docx.

Inductive Exn := ReadError | WriteError.

(** A call either raises or returns. *)
Definition result (A : Type) : Type := Exn + A.

#[global] Instance result_ret : MRet result := λ A x, inr x.
#[global] Instance result_bind : MBind result := λ A B f m,
  match m with
  | inl e => inl e
  | inr x => f x
  end.

(** The body of a document, one paragraph per call that adds to it; the
    page break is a paragraph of its own, with empty text. *)
Inductive Block :=
| Paragraph (text : string) (style : option string)
| RunParagraph (run_text : string) (bold : bool)
| PageBreak
| Heading (text : string) (level : nat).

Record Document := mkDocument {
  blocks : list Block;
  styles : list string
}.

(** The files of the working directory that parse as documents, the
    destinations that cannot be written, and the style names of the
    library's blank template. *)
Record Env := mkEnv {
  files : gmap string Document;
  locked : gset string;
  template_styles : list string
}.

Definition block_text (b : Block) : string :=
  match b with
  | Paragraph text _ => text
  | RunParagraph run_text _ => run_text
  | PageBreak => EmptyString
  | Heading text _ => text
  end.

(** [doc.paragraphs], as the list of each [p.text] *)
Definition paragraphs (doc : Document) : list string :=
  block_text <$> blocks doc.

(** Text given to a paragraph or a run is stored with each carriage return
    as a line break, which reads back as a newline; every other character
    of document text reads back as given. *)
Definition stored_char (c : ascii) : ascii :=
  if Ascii.eqb c "013"%char then "010"%char else c.

Fixpoint stored (text : string) : string :=
  match text with
  | EmptyString => EmptyString
  | String c text' => String (stored_char c) (stored text')
  end.

(** [Document(path)] *)
Definition Document_open (env : Env) (path : string) : result Document :=
  match files env !! path with
  | Some doc => inr doc
  | None => inl ReadError
  end.

(** [Document()] *)
Definition Document_new (env : Env) : Document :=
  {| blocks := []; styles := template_styles env |}.

Definition add_block (doc : Document) (b : Block) : Document :=
  {| blocks := blocks doc ++ [b]; styles := styles doc |}.

(** [doc.add_paragraph(text)], with the style then set on it, if any *)
Definition add_paragraph (doc : Document) (text : string) (style : option string)
    : Document :=
  add_block doc (Paragraph (stored text) style).

(** [para = doc.add_paragraph()] followed by [para.add_run(text).bold = bold] *)
Definition add_run_paragraph (doc : Document) (text : string) (bold : bool) : Document :=
  add_block doc (RunParagraph (stored text) bold).

(** [doc.add_page_break()] *)
Definition add_page_break (doc : Document) : Document := add_block doc PageBreak.

(** [doc.add_heading(text, level)] *)
Definition add_heading (doc : Document) (text : string) (level : nat) : Document :=
  add_block doc (Heading (stored text) level).

(** [doc.save(path)] *)
Definition save (env : Env) (doc : Document) (path : string) : result Env :=
  if decide (path ∈ locked env) then inl WriteError
  else inr {| files := <[path := doc]> (files env);
              locked := locked env;
              template_styles := template_styles env |}.

End docx.

(** ** docx_utils.py *)

Module docx_utils.
Import PyStr docx.

Definition extract_docx_paragraphs (env : Env) (path : string) : result (list string) :=
  doc ← Document_open env path;
  let paragraphs := strip <$> filter (λ text, strip text ≠ EmptyString) (paragraphs doc) in
  mret paragraphs.

(** The records [summarize_issues] builds; ["citation_key"] is [None]
    where the record has no such key. *)
Record Issue := mkIssue {
  document : string;
  section : string;
  issue : string;
  severity : string;
  suggestion : option string;
  citation_key : option string
}.

Definition jurisdiction_rec (filename : string) (idx : nat)
    (ji : adgm_checklist.RuleIssue) : Issue :=
  {| document := filename;
     section := "Paragraph " +:+ str_of_nat (idx + 1);
     issue := adgm_checklist.issue ji;
     severity := adgm_checklist.severity ji;
     suggestion := Some (adgm_checklist.suggestion ji);
     citation_key := adgm_checklist.citation_key ji |}.

Definition ambiguity_rec (filename : string) (idx : nat)
    (ai : adgm_checklist.RuleIssue) : Issue :=
  {| document := filename;
     section := "Paragraph " +:+ str_of_nat (idx + 1);
     issue := adgm_checklist.issue ai;
     severity := adgm_checklist.severity ai;
     suggestion := Some (adgm_checklist.suggestion ai);
     citation_key := None |}.

Definition signature_rec (filename : string) (m : adgm_checklist.RuleIssue) : Issue :=
  {| document := filename;
     section := "End of Document";
     issue := adgm_checklist.issue m;
     severity := adgm_checklist.severity m;
     suggestion := Some (adgm_checklist.suggestion m);
     citation_key := None |}.

(** [for x in xs: issues.append(rec x)] *)
Definition append_each {A} (rec : A → Issue) (issues : list Issue) (xs : list A) : list Issue :=
  foldl (λ issues x, issues ++ [rec x]) issues xs.

(** [for idx, p in enumerate(paragraphs)], from index [idx] on *)
Fixpoint paragraph_loop (filename : string) (idx : nat) (paragraphs : list string)
    (issues : list Issue) : list Issue :=
  match paragraphs with
  | [] => issues
  | p :: rest =>
      if decide (String.length (strip p) = 0)
      then paragraph_loop filename (S idx) rest issues
      else
        let j_issues := adgm_checklist.check_jurisdiction_paragraph p in
        let issues := append_each (jurisdiction_rec filename idx) issues j_issues in
        let a_issues := adgm_checklist.detect_ambiguous_language p in
        let issues := append_each (ambiguity_rec filename idx) issues a_issues in
        paragraph_loop filename (S idx) rest issues
  end.

Definition summarize_issues (paragraphs : list string) (filename : string)
    (check_adgm : bool) : list Issue :=
  let issues := paragraph_loop filename 0 paragraphs [] in
  let ms := adgm_checklist.detect_missing_signature paragraphs in
  let issues := append_each (signature_rec filename) issues ms in
  issues.

Definition review_heading : string := "Automated Review Comments / Issues".

(** A value is truthy when it is neither [None] nor the empty string. *)
Definition truthy (v : option string) : option string :=
  match v with
  | Some EmptyString => None
  | _ => v
  end.

(** The body of [for idx, iss in enumerate(issues, 1)] *)
Definition add_issue_block (out : Document) (idx : nat) (iss : Issue) : Document :=
  let out :=
    add_run_paragraph out
      ("[" +:+ str_of_nat idx +:+ "] Document: " +:+ document iss
       +:+ " | Section: " +:+ section iss) true in
  let out := add_paragraph out ("Issue: " +:+ issue iss) None in
  let out :=
    match truthy (suggestion iss) with
    | Some s =>
        add_paragraph out ("Suggestion: " +:+ s)
          (if decide ("Intense Quote" ∈ styles out)
           then Some "Intense Quote" else None)
    | None => out
    end in
  let out :=
    match truthy (citation_key iss) with
    | Some c => add_paragraph out ("Citation: " +:+ c) None
    | None => out
    end in
  out.

Fixpoint issue_blocks_loop (out : Document) (idx : nat) (issues : list Issue) : Document :=
  match issues with
  | [] => out
  | iss :: rest => issue_blocks_loop (add_issue_block out idx iss) (S idx) rest
  end.

Definition create_reviewed_docx (env : Env) (original_path reviewed_path : string)
    (issues : list Issue) : result Env :=
  src ← Document_open env original_path;
  let out := Document_new env in
  let out := foldl (λ out text, add_paragraph out text None) out (paragraphs src) in
  let out := add_page_break out in
  let out := add_heading out review_heading 1 in
  let out := issue_blocks_loop out 1 issues in
  save env out reviewed_path.

End docx_utils.

(** ** app.py: the loops over the uploaded batch *)

Module app.
Import PyStr docx docx_utils.

(** [workspace / name] *)
Record Path := mkPath {
  parent : string;
  name : string
}.

(** [str(p)], the key under which the file is stored *)
Definition str (p : Path) : string := parent p +:+ "/" +:+ name p.

Record DocSummary := mkDocSummary {
  filename : string;
  path : string;
  detected_type : string;
  paragraph_count : nat
}.

(** Parse docs and detect type: [for p in docs], appending to
    [doc_summaries]. *)
Fixpoint parse_loop (env : Env) (docs : list Path) (doc_summaries : list DocSummary)
    : result (list DocSummary) :=
  match docs with
  | [] => mret doc_summaries
  | p :: rest =>
      text_paragraphs ← extract_docx_paragraphs env (str p);
      let detected := adgm_checklist.detect_doc_type_by_text (join nl text_paragraphs) in
      let doc_summaries :=
        doc_summaries ++
          [ {| filename := name p;
               path := str p;
               detected_type := detected;
               paragraph_count := length text_paragraphs |} ] in
      parse_loop env rest doc_summaries
  end.

(** Checklist verification *)
Definition present (required uploaded_types : list string) : list string :=
  filter (λ r, r ∈ uploaded_types) required.

Definition missing (required uploaded_types : list string) : list string :=
  filter (λ r, r ∉ uploaded_types) required.

(** Gather all issues across docs: [for p in docs], extending
    [all_issues]. *)
Fixpoint gather_loop (env : Env) (docs : list Path) (all_issues : list Issue)
    : result (list Issue) :=
  match docs with
  | [] => mret all_issues
  | p :: rest =>
      paras ← extract_docx_paragraphs env (str p);
      let issues := summarize_issues paras (name p) true in
      let all_issues := all_issues ++ issues in
      gather_loop env rest all_issues
  end.

Definition reviewed_path (workspace : string) (p : Path) : Path :=
  {| parent := workspace; name := "reviewed_" +:+ name p |}.

(** The export loop: [for p in docs], one reviewed copy each. *)
Fixpoint export_loop (env : Env) (workspace : string) (docs : list Path)
    (all_issues : list Issue) (reviewed_files : list Path) : result (Env * list Path) :=
  match docs with
  | [] => mret (env, reviewed_files)
  | p :: rest =>
      let reviewed_path := reviewed_path workspace p in
      env ← create_reviewed_docx env (str p) (str reviewed_path) all_issues;
      let reviewed_files := reviewed_files ++ [reviewed_path] in
      export_loop env workspace rest all_issues reviewed_files
  end.

Record Report := mkReport {
  process : string;
  documents_uploaded : nat;
  required_documents : option nat;
  missing_documents : list string;
  issues_found : list Issue
}.

Definition company_incorporation : string := "Company Incorporation".

(** The data flow of one run of the script, from the stored uploads to
    the reviewed copies: parsing, the checklist, the gathering of issues
    and, when the button is pressed, the report record and the export loop.
    The selected process and the button are its inputs. The widgets of the
    page and the writing of the report record to its file are not part of
    it. With no upload the script stops at once. *)
Definition run (env : Env) (workspace : string) (docs : list Path)
    (process : string) (button : bool) : result (Env * option Report) :=
  if decide (docs = []) then mret (env, None)
  else
    doc_summaries ← parse_loop env docs [];
    let uploaded_types := detected_type <$> doc_summaries in
    let missing := missing adgm_checklist.COMPANY_INCORPORATION_CHECKLIST uploaded_types in
    all_issues ← gather_loop env docs [];
    if button then
      let json_summary :=
        {| process := if decide (process = company_incorporation)
                      then company_incorporation else "Unknown";
           documents_uploaded := length docs;
           required_documents :=
             if decide (process = company_incorporation)
             then Some (length adgm_checklist.COMPANY_INCORPORATION_CHECKLIST) else None;
           missing_documents :=
             if decide (process = company_incorporation) then missing else [];
           issues_found := all_issues |} in
      '(env, reviewed_files) ← export_loop env workspace docs all_issues [];
      mret (env, Some json_summary)
    else mret (env, None).

(** The caption under an issue shown in the page:
    [if "citation_key" in issue], then [ADGM_CITATIONS.get] and
    [if cite]. *)
Definition citation_caption (issue : Issue) : option string :=
  match citation_key issue with
  | Some key =>
      match truthy (adgm_checklist.ADGM_CITATIONS !! key) with
      | Some cite => Some ("Citation: " +:+ cite)
      | None => None
      end
  | None => None
  end.

End app.

(** ** Notions the statements are phrased in *)

Module Spec.
Import PyStr docx docx_utils.

(** The closed set of document labels. *)
Definition DocumentLabels : list string :=
  [ "Articles of Association";
    "Memorandum of Association";
    "Board Resolution Template";
    "Incorporation Application Form";
    "Register of Members and Directors";
    "UBO Declaration Form";
    "Commercial Agreement";
    "Unknown" ].

(** The classifier as an ordered list of keyword predicates over the
    lower-cased text, each with its label. *)
Definition keyword_rules : list ((string → bool) * string) :=
  [ (λ txt, contains "articles of association" txt
            || contains "article" txt && contains "association" txt,
     "Articles of Association");
    (λ txt, contains "memorandum of association" txt || contains "memorandum" txt,
     "Memorandum of Association");
    (λ txt, contains "board resolution" txt, "Board Resolution Template");
    (λ txt, contains "register of members" txt || contains "register of directors" txt,
     "Register of Members and Directors");
    (λ txt, contains "ubo" txt || contains "ultimate beneficial owner" txt,
     "UBO Declaration Form");
    (λ txt, contains "application for incorporation" txt
            || contains "incorporation application" txt,
     "Incorporation Application Form") ].

(** First match wins; then the ["agreement"] fallback; then Unknown. *)
Definition classify (fullText : string) : string :=
  let txt := lower fullText in
  match find (λ rule, rule.1 txt) keyword_rules with
  | Some rule => rule.2
  | None => if contains "agreement" txt then "Commercial Agreement" else "Unknown"
  end.

Definition severities : list string := [ "High"; "Medium"; "Low" ].

(** The invariant of an issue, for the rule results and for the records. *)
Definition rule_issue_ok (r : adgm_checklist.RuleIssue) : Prop :=
  adgm_checklist.issue r ≠ EmptyString
  ∧ adgm_checklist.severity r ∈ severities
  ∧ ∀ key, adgm_checklist.citation_key r = Some key →
           is_Some (adgm_checklist.ADGM_CITATIONS !! key).

Definition issue_ok (i : Issue) : Prop :=
  issue i ≠ EmptyString
  ∧ severity i ∈ severities
  ∧ ∀ key, citation_key i = Some key →
           is_Some (adgm_checklist.ADGM_CITATIONS !! key).

(** The two triggers of the jurisdiction rule and the trigger of the
    signature rule, on lower-cased text. *)
Definition names_federal_courts (lower : string) : Prop :=
  contains "u.a.e federal courts" lower = true
  ∨ contains "federal courts of the uae" lower = true.

Definition names_jurisdiction (lower : string) : Prop :=
  contains "jurisdiction" lower = true ∨ contains "governing law" lower = true.

Definition no_signature_phrase (joined : string) : Prop :=
  contains "signature" joined = false
  ∧ contains "signed" joined = false
  ∧ contains "authorized signatory" joined = false.

(** [phrase] occurs in [text] when case is ignored: some stretch of [text]
    lower-cases to it. *)
Definition occurs_ignoring_case (phrase text : string) : Prop :=
  ∃ pre mid post, text = pre +:+ mid +:+ post ∧ lower mid = phrase.


(** The block of one issue in the comments section of a reviewed copy,
    [quote] telling whether the template has the quote style. *)
Definition issue_block (quote : bool) (idx : nat) (iss : Issue) : list Block :=
  [ RunParagraph (stored ("[" +:+ str_of_nat idx +:+ "] Document: " +:+ document iss
                          +:+ " | Section: " +:+ section iss)) true;
    Paragraph (stored ("Issue: " +:+ issue iss)) None ]
  ++ match truthy (suggestion iss) with
     | Some s => [ Paragraph (stored ("Suggestion: " +:+ s))
                     (if quote then Some "Intense Quote" else None) ]
     | None => []
     end
  ++ match truthy (citation_key iss) with
     | Some c => [ Paragraph (stored ("Citation: " +:+ c)) None ]
     | None => []
     end.

(** The comments section for a list of issues numbered from [idx]. *)
Fixpoint comments_section (quote : bool) (idx : nat) (issues : list Issue) : list Block :=
  match issues with
  | [] => []
  | iss :: rest => issue_block quote idx iss ++ comments_section quote (S idx) rest
  end.

(** The reviewed copy of a document with paragraph texts [copied], as
    stored: the texts, the page break, the heading, and the comments
    section. *)
Definition reviewed_document (template_styles : list string) (copied : list string)
    (issues : list Issue) : Document :=
  {| blocks :=
       ((λ text, Paragraph text None) <$> copied)
       ++ [PageBreak; Heading review_heading 1]
       ++ comments_section (bool_decide ("Intense Quote" ∈ template_styles)) 1 issues;
     styles := template_styles |}.

(** The file stored under [key] is a reviewed copy made from [issues]. *)
Definition reviewed_at (env : Env) (key : string) (issues : list Issue) : Prop :=
  ∃ copied,
    files env !! key = Some (reviewed_document (template_styles env) copied issues).

(** [part] is the list of issues the aggregation finds in document [p]. *)
Definition issues_of_doc (env : Env) (p : app.Path) (part : list Issue) : Prop :=
  ∃ paras,
    extract_docx_paragraphs env (app.str p) = inr paras
    ∧ part = summarize_issues paras (app.name p) true.

(** The paragraphs of the worked example. *)
Definition example_paragraphs : list string :=
  [ "This agreement is governed by the federal courts of the UAE.";
    "The parties shall endeavour to perform in good faith.";
    "End of document." ].

(** Every character of [s] is white space. *)
Fixpoint all_space (s : string) : bool :=
  match s with
  | EmptyString => true
  | String c s' => isspace c && all_space s'
  end.

(** The first character of [s], if any, is not white space. *)
Definition starts_clean (s : string) : Prop :=
  match s with
  | EmptyString => True
  | String c _ => isspace c = false
  end.

(** [c] is not a character of [s]. *)
Fixpoint lacks (c : ascii) (s : string) : bool :=
  match s with
  | EmptyString => true
  | String c' s' => negb (Ascii.eqb c c') && lacks c s'
  end.

(** The three phrases of the signature rule. *)
Definition signature_phrases : list string :=
  [ "signature"; "signed"; "authorized signatory" ].

(** The issues one pass of the paragraph loop adds for paragraph [p] at
    index [idx]. *)
Definition paragraph_issues (filename : string) (idx : nat) (p : string) : list Issue :=
  if decide (String.length (strip p) = 0) then []
  else (jurisdiction_rec filename idx <$> adgm_checklist.check_jurisdiction_paragraph p)
       ++ (ambiguity_rec filename idx <$> adgm_checklist.detect_ambiguous_language p).

(** The section label of the paragraph at index [idx]. *)
Definition paragraph_section (idx : nat) : string :=
  "Paragraph " +:+ str_of_nat (idx + 1).

(** [s] is the summary the parsing loop makes of document [p]. *)
Definition summary_of (env : Env) (p : app.Path) (s : app.DocSummary) : Prop :=
  ∃ paras,
    extract_docx_paragraphs env (app.str p) = inr paras
    ∧ s = {| app.filename := app.name p;
             app.path := app.str p;
             app.detected_type :=
               adgm_checklist.detect_doc_type_by_text (join nl paras);
             app.paragraph_count := length paras |}.

(** The texts extraction finds in a list of paragraph texts. *)
Definition clean_texts (texts : list string) : list string :=
  strip <$> filter (λ text, strip text ≠ EmptyString) texts.

(** A working directory with two readable uploads and an empty one;
    [broken] names an upload that does not parse. *)
Definition doc_of (texts : list string) : Document :=
  {| blocks := (λ text, Paragraph text None) <$> texts; styles := [] |}.

Definition example_workspace : string := "/tmp/adgm_agent".

Definition lease : app.Path := app.mkPath example_workspace "lease.docx".
Definition memo : app.Path := app.mkPath example_workspace "memo.docx".
Definition blank : app.Path := app.mkPath example_workspace "blank.docx".

Definition example_env : Env :=
  {| files :=
       <[app.str lease :=
           doc_of [ "This agreement is governed by the federal courts of the UAE.";
                    "Signed by both parties." ]]>
       (<[app.str memo :=
           doc_of [ "Memorandum of Association";
                    "The company may possibly issue shares.";
                    "Authorized signatory: the director" ]]>
       (<[app.str blank := doc_of []]> ∅));
     locked := ∅;
     template_styles := [ "Normal"; "Intense Quote" ] |}.

(** A working directory with an upload whose one paragraph holds a
    carriage return. *)
Definition two_lines : app.Path := app.mkPath example_workspace "two_lines.docx".

Definition carriage_env : Env :=
  {| files :=
       <[app.str two_lines :=
           doc_of [ "first" +:+ String "013"%char "second" ]]> ∅;
     locked := ∅;
     template_styles := [ "Normal" ] |}.

(** A working directory in which one upload bears the name of the reviewed
    copy of the other. *)
Definition draft : app.Path := app.mkPath example_workspace "draft.docx".
Definition reviewed_draft : app.Path :=
  app.mkPath example_workspace "reviewed_draft.docx".

Definition clashing_env : Env :=
  {| files :=
       <[app.str draft := doc_of [ "Signed by both parties." ]]>
       (<[app.str reviewed_draft := doc_of [ "Signature page" ]]> ∅);
     locked := ∅;
     template_styles := [ "Normal" ] |}.

End Spec.

(** ** Facts about the string operations *)

Section PyStrFacts.
Import PyStr.

Lemma prefix_app (p s : string) :
  String.prefix p s = true ↔ ∃ post, s = p +:+ post.
Proof.
  revert s. induction p as [|a p IH]; intros s.
  - split; [intros _; by exists s|]. by destruct s.
  - destruct s as [|b s]; simpl.
    + split; [done|]. by intros [post Hpost].
    + destruct (ascii_dec a b) as [->|Hne].
      * rewrite IH. split; intros [post Hpost]; exists post.
        -- rewrite Hpost. done.
        -- by injection Hpost.
      * split; [done|]. intros [post Hpost]. by injection Hpost.
Qed.

(** [needle in hay] holds exactly when [hay] splits around [needle]. *)
Lemma contains_spec (needle hay : string) :
  contains needle hay = true ↔ ∃ pre post, hay = pre +:+ needle +:+ post.
Proof.
  induction hay as [|c hay IH]; cbn [contains].
  - rewrite orb_false_r, prefix_app. split.
    + intros [post ->]. by exists EmptyString, post.
    + intros [pre [post H]]. destruct pre; [by exists post|done].
  - rewrite orb_true_iff, prefix_app, IH. split.
    + intros [[post ->]|[pre [post ->]]].
      * by exists EmptyString, post.
      * by exists (String c pre), post.
    + intros [pre [post H]]. destruct pre as [|c' pre].
      * left. by exists post.
      * right. exists pre, post. by injection H.
Qed.

Lemma isspace_lower_char (c : ascii) : isspace (lower_char c) = isspace c.
Proof. by destruct c as [[] [] [] [] [] [] [] []]. Qed.

Lemma split_from_lower_length (s w w' : string) :
  (w = EmptyString ↔ w' = EmptyString) →
  length (split_from w' (lower s)) = length (split_from w s).
Proof.
  revert w w'. induction s as [|c s IH]; intros w w' [Hw1 Hw2]; simpl.
  - destruct w, w'; try done.
    + by specialize (Hw1 eq_refl).
    + by specialize (Hw2 eq_refl).
  - rewrite isspace_lower_char. destruct (isspace c).
    + destruct w, w'; simpl.
      * by apply IH.
      * by specialize (Hw1 eq_refl).
      * by specialize (Hw2 eq_refl).
      * f_equal. by apply IH.
    + apply IH. by destruct w, w'.
Qed.

(** Lower-casing keeps the word count. *)
Lemma split_lower_length (s : string) :
  length (split (lower s)) = length (split s).
Proof. by apply split_from_lower_length. Qed.

Lemma lower_app (s t : string) : lower (s +:+ t) = lower s +:+ lower t.
Proof.
  induction s as [|c s IH]; [done|].
  change (lower (String c (s +:+ t)) = String (lower_char c) (lower s +:+ lower t)).
  simpl. by rewrite IH.
Qed.

Lemma lower_app_inv (s a b : string) :
  lower s = a +:+ b → ∃ a' b', s = a' +:+ b' ∧ lower a' = a ∧ lower b' = b.
Proof.
  revert s. induction a as [|c a IH]; intros s Hs.
  - by exists EmptyString, s.
  - destruct s as [|c' s]; [done|]. injection Hs as Hc Hs.
    apply IH in Hs as (a' & b' & -> & <- & <-).
    exists (String c' a'), b'. by rewrite <- Hc.
Qed.

(** Looking for a phrase in the lower-cased text is looking for it in the
    text with case ignored. *)
Lemma contains_lower_spec (phrase text : string) :
  contains phrase (lower text) = true ↔ Spec.occurs_ignoring_case phrase text.
Proof.
  rewrite contains_spec. unfold Spec.occurs_ignoring_case. split.
  - intros (pre & post & H).
    apply lower_app_inv in H as (pre' & rest & -> & _ & H).
    apply lower_app_inv in H as (mid & post' & -> & H & _).
    by exists pre', mid, post'.
  - intros (pre & mid & post & -> & <-).
    exists (lower pre), (lower post). by rewrite !lower_app.
Qed.

Lemma last_n_short {A} (n : nat) (l : list A) :
  length l ≤ n → last_n n l = l.
Proof. intros H. unfold last_n. by replace (length l - n) with 0 by lia. Qed.

Lemma last_n_length {A} (n : nat) (l : list A) :
  length (last_n n l) = length l `min` n.
Proof. unfold last_n. rewrite length_drop. lia. Qed.

Lemma last_n_suffix {A} (n : nat) (l : list A) : last_n n l `suffix_of` l.
Proof. apply suffix_drop. Qed.

End PyStrFacts.

(** ** The rule evaluators *)

Section Rules.
Import PyStr adgm_checklist Spec.

Lemma check_jurisdiction_paragraph_eq (p : string) :
  check_jurisdiction_paragraph p =
    (if contains "u.a.e federal courts" (lower p)
        || contains "federal courts of the uae" (lower p)
     then [federal_courts_issue] else [])
    ++ (if negb (contains "adgm" (lower p))
           && (contains "jurisdiction" (lower p) || contains "governing law" (lower p))
        then [no_adgm_issue] else []).
Proof.
  unfold check_jurisdiction_paragraph; cbv zeta.
  destruct (contains "u.a.e federal courts" _ || _);
    destruct (negb _ && _); reflexivity.
Qed.

(** C3: the jurisdiction rule returns at most two issues; each of its two
    checks decides alone whether its own issue is returned; and a paragraph
    that names the federal courts, names jurisdiction or governing law and
    does not name ADGM gets exactly the High issue followed by the Medium
    one. *)
Theorem jurisdiction_checks_independent (p : string) :
  length (check_jurisdiction_paragraph p) ≤ 2
  ∧ (federal_courts_issue ∈ check_jurisdiction_paragraph p
     ↔ names_federal_courts (lower p))
  ∧ (no_adgm_issue ∈ check_jurisdiction_paragraph p
     ↔ contains "adgm" (lower p) = false ∧ names_jurisdiction (lower p))
  ∧ (names_federal_courts (lower p) →
     names_jurisdiction (lower p) →
     contains "adgm" (lower p) = false →
     check_jurisdiction_paragraph p = [federal_courts_issue; no_adgm_issue]
     ∧ severity <$> check_jurisdiction_paragraph p = ["High"; "Medium"]).
Proof.
  rewrite check_jurisdiction_paragraph_eq.
  unfold names_federal_courts, names_jurisdiction.
  rewrite <- !orb_true_iff.
  destruct (contains "u.a.e federal courts" (lower p)
            || contains "federal courts of the uae" (lower p)) eqn:Hfed;
    destruct (contains "adgm" (lower p)) eqn:Hadgm;
    destruct (contains "jurisdiction" (lower p) || contains "governing law" (lower p))
      eqn:Hjur; simpl;
    (split; [lia|]);
    (split; [set_solver|]);
    (split; [set_solver|]); try done.
Qed.

Lemma jurisdiction_checks_independent_witness :
  let p := "The jurisdiction shall be the Federal Courts of the UAE." in
  names_federal_courts (lower p)
  ∧ names_jurisdiction (lower p)
  ∧ contains "adgm" (lower p) = false
  ∧ check_jurisdiction_paragraph p = [federal_courts_issue; no_adgm_issue].
Proof.
  intros p.
  assert (Hfed : names_federal_courts (lower p)) by (right; reflexivity).
  assert (Hjur : names_jurisdiction (lower p)) by (left; reflexivity).
  assert (Hadgm : contains "adgm" (lower p) = false) by reflexivity.
  split; [exact Hfed|]. split; [exact Hjur|]. split; [exact Hadgm|].
  exact (proj1 (proj2 (proj2 (proj2 (jurisdiction_checks_independent p)))
                  Hfed Hjur Hadgm)).
Defined.





End Rules.

(** ** The per-document pipeline *)

Section Summarize.
Import PyStr docx docx_utils Spec.

Lemma append_each_eq {A} (rec : A → Issue) (issues : list Issue) (xs : list A) :
  append_each rec issues xs = issues ++ (rec <$> xs).
Proof.
  unfold append_each. revert issues.
  induction xs as [|x xs IH]; intros issues; simpl.
  - by rewrite app_nil_r.
  - by rewrite IH, <- app_assoc.
Qed.

(** The issues of one paragraph, as the loop body appends them. *)
Lemma paragraph_loop_cons (filename : string) (idx : nat) (p : string)
    (rest : list string) (issues : list Issue) :
  paragraph_loop filename idx (p :: rest) issues =
    paragraph_loop filename (S idx) rest
      (issues ++
       if decide (String.length (strip p) = 0) then []
       else (jurisdiction_rec filename idx
               <$> adgm_checklist.check_jurisdiction_paragraph p)
            ++ (ambiguity_rec filename idx
                  <$> adgm_checklist.detect_ambiguous_language p)).
Proof.
  simpl. case_decide.
  - by rewrite app_nil_r.
  - by rewrite !append_each_eq, <- app_assoc.
Qed.

Lemma paragraph_loop_acc (filename : string) (idx : nat) (paragraphs : list string)
    (issues : list Issue) :
  paragraph_loop filename idx paragraphs issues =
    issues ++ paragraph_loop filename idx paragraphs [].
Proof.
  revert idx issues. induction paragraphs as [|p rest IH]; intros idx issues.
  - simpl. by rewrite app_nil_r.
  - rewrite !paragraph_loop_cons, app_nil_l.
    rewrite (IH (S idx) (issues ++ _)), (IH (S idx) (if decide _ then _ else _)).
    by rewrite app_assoc.
Qed.

Lemma summarize_issues_eq (paragraphs : list string) (filename : string)
    (check_adgm : bool) :
  summarize_issues paragraphs filename check_adgm =
    paragraph_loop filename 0 paragraphs []
    ++ (signature_rec filename <$> adgm_checklist.detect_missing_signature paragraphs).
Proof. unfold summarize_issues; cbv zeta. apply append_each_eq. Qed.

(** Every issue of the paragraph loop satisfies a property that the records
    of both per-paragraph rules satisfy. *)
Lemma paragraph_loop_Forall (P : Issue → Prop) (filename : string) :
  (∀ idx p, Forall P (jurisdiction_rec filename idx
                        <$> adgm_checklist.check_jurisdiction_paragraph p)) →
  (∀ idx p, Forall P (ambiguity_rec filename idx
                        <$> adgm_checklist.detect_ambiguous_language p)) →
  ∀ idx paragraphs, Forall P (paragraph_loop filename idx paragraphs []).
Proof.
  intros Hj Ha idx paragraphs. revert idx.
  induction paragraphs as [|p rest IH]; intros idx; [by constructor|].
  rewrite paragraph_loop_cons, paragraph_loop_acc, app_nil_l.
  apply Forall_app. split; [|apply IH].
  case_decide; [by constructor|]. apply Forall_app. by split.
Qed.

Lemma filter_none {A} (P : A → Prop) `{!∀ x, Decision (P x)} (l : list A) :
  Forall (λ x, ¬ P x) l → filter P l = [].
Proof.
  induction 1 as [|x l Hx Hl IH]; [done|].
  by rewrite filter_cons_False.
Qed.

Lemma paragraph_section_not_sentinel (idx : nat) :
  "Paragraph " +:+ str_of_nat (idx + 1) ≠ "End of Document".
Proof. discriminate. Qed.

Lemma federal_courts_issue_ok : rule_issue_ok adgm_checklist.federal_courts_issue.
Proof.
  split; [discriminate|]. split; [apply list_elem_of_here|].
  intros key [= <-]. by eexists.
Qed.

Lemma no_adgm_issue_ok : rule_issue_ok adgm_checklist.no_adgm_issue.
Proof.
  split; [discriminate|].
  split; [apply list_elem_of_further, list_elem_of_here|].
  intros key [= <-]. by eexists.
Qed.

Lemma missing_signature_issue_ok : rule_issue_ok adgm_checklist.missing_signature_issue.
Proof. split; [discriminate|]. split; [apply list_elem_of_here|]. discriminate. Qed.

Lemma ambiguous_issue_ok (marker : string) :
  rule_issue_ok (adgm_checklist.ambiguous_issue marker).
Proof.
  split; [discriminate|].
  split; [do 2 apply list_elem_of_further; apply list_elem_of_here|]. discriminate.
Qed.

Lemma check_jurisdiction_paragraph_ok (p : string) :
  Forall rule_issue_ok (adgm_checklist.check_jurisdiction_paragraph p).
Proof.
  rewrite check_jurisdiction_paragraph_eq. apply Forall_app.
  split; [destruct (_ || _)|destruct (negb _ && _)];
    auto using federal_courts_issue_ok, no_adgm_issue_ok.
Qed.

Lemma ambiguous_loop_ok (markers : list string) (lower : string) :
  Forall rule_issue_ok (adgm_checklist.ambiguous_loop markers lower).
Proof.
  induction markers as [|marker rest IH]; simpl; [by constructor|].
  destruct (_ && _); auto using ambiguous_issue_ok.
Qed.

Lemma detect_missing_signature_ok (paragraphs : list string) :
  Forall rule_issue_ok (adgm_checklist.detect_missing_signature paragraphs).
Proof.
  unfold adgm_checklist.detect_missing_signature; cbv zeta.
  destruct (_ && _); auto using missing_signature_issue_ok.
Qed.

Lemma jurisdiction_rec_ok (filename : string) (idx : nat) (r : adgm_checklist.RuleIssue) :
  rule_issue_ok r → issue_ok (jurisdiction_rec filename idx r).
Proof. by intros (? & ? & ?). Qed.

Lemma ambiguity_rec_ok (filename : string) (idx : nat) (r : adgm_checklist.RuleIssue) :
  rule_issue_ok r → issue_ok (ambiguity_rec filename idx r).
Proof. intros (? & ? & ?). by repeat split. Qed.

Lemma signature_rec_ok (filename : string) (r : adgm_checklist.RuleIssue) :
  rule_issue_ok r → issue_ok (signature_rec filename r).
Proof. intros (? & ? & ?). by repeat split. Qed.

Lemma summarize_issues_ok (paragraphs : list string) (filename : string)
    (check_adgm : bool) :
  Forall issue_ok (summarize_issues paragraphs filename check_adgm).
Proof.
  rewrite summarize_issues_eq. apply Forall_app. split.
  - apply paragraph_loop_Forall; intros idx p; apply Forall_fmap.
    + eapply Forall_impl; [apply check_jurisdiction_paragraph_ok|].
      apply jurisdiction_rec_ok.
    + eapply Forall_impl; [apply ambiguous_loop_ok|]. apply ambiguity_rec_ok.
  - apply Forall_fmap.
    eapply Forall_impl; [apply detect_missing_signature_ok|]. apply signature_rec_ok.
Qed.

Lemma no_signature_phrase_spec (text : string) :
  no_signature_phrase (lower text)
  ↔ ¬ occurs_ignoring_case "signature" text
    ∧ ¬ occurs_ignoring_case "signed" text
    ∧ ¬ occurs_ignoring_case "authorized signatory" text.
Proof.
  unfold no_signature_phrase.
  by rewrite <- !contains_lower_spec, !not_true_iff_false.
Qed.

(** C5: the signature rule returns at most one issue, and returns one
    exactly when none of the three phrases occurs, case ignored, in the
    last ten paragraphs joined by newlines (all of them when there are
    fewer); in the issues of a document, those of the section
    "End of Document" are the records of that rule, each of High
    severity. *)
Theorem missing_signature_once (paragraphs : list string) (filename : string)
    (check_adgm : bool) :
  length (adgm_checklist.detect_missing_signature paragraphs) ≤ 1
  ∧ (length (adgm_checklist.detect_missing_signature paragraphs) = 1
     ↔ ¬ occurs_ignoring_case "signature" (join nl (last_n 10 paragraphs))
       ∧ ¬ occurs_ignoring_case "signed" (join nl (last_n 10 paragraphs))
       ∧ ¬ occurs_ignoring_case "authorized signatory" (join nl (last_n 10 paragraphs)))
  ∧ last_n 10 paragraphs `suffix_of` paragraphs
  ∧ length (last_n 10 paragraphs) = length paragraphs `min` 10
  ∧ filter (λ i, section i = "End of Document")
           (summarize_issues paragraphs filename check_adgm)
    = signature_rec filename <$> adgm_checklist.detect_missing_signature paragraphs
  ∧ Forall (λ i, severity i = "High" ∧ section i = "End of Document")
           (signature_rec filename
              <$> adgm_checklist.detect_missing_signature paragraphs).
Proof.
  assert (Hrule :
    adgm_checklist.detect_missing_signature paragraphs
    = if bool_decide (no_signature_phrase (lower (join nl (last_n 10 paragraphs))))
      then [adgm_checklist.missing_signature_issue] else []).
  { unfold adgm_checklist.detect_missing_signature, no_signature_phrase; cbv zeta.
    by destruct (contains "signature" _), (contains "signed" _),
      (contains "authorized signatory" _). }
  rewrite summarize_issues_eq, filter_app, Hrule.
  assert (Hloop : filter (λ i, section i = "End of Document")
                         (paragraph_loop filename 0 paragraphs []) = []).
  { apply filter_none.
    apply paragraph_loop_Forall; intros idx p; apply Forall_fmap, Forall_true;
      intros r; apply paragraph_section_not_sentinel. }
  rewrite Hloop, app_nil_l, <- no_signature_phrase_spec.
  split; [case_bool_decide; simpl; lia|].
  split; [case_bool_decide; simpl; split; (done || lia)|].
  split; [apply last_n_suffix|]. split; [apply last_n_length|].
  case_bool_decide; simpl; [|done].
  split; [done|]. by repeat constructor.
Qed.

(** C1, as the code has it: the worked example yields exactly three issues,
    the High federal-courts issue of paragraph 1, the Low ambiguity issue of
    paragraph 2 naming "endeavour to", and the High missing-signature
    issue. *)
Theorem example_three_issues (filename : string) (check_adgm : bool) :
  summarize_issues example_paragraphs filename check_adgm =
    [ jurisdiction_rec filename 0 adgm_checklist.federal_courts_issue;
      ambiguity_rec filename 1 (adgm_checklist.ambiguous_issue "endeavour to");
      signature_rec filename adgm_checklist.missing_signature_issue ]
  ∧ severity <$> summarize_issues example_paragraphs filename check_adgm
    = ["High"; "Low"; "High"].
Proof. split; reflexivity. Qed.

(** The worked example does not yield four issues, and none of its issues
    is of Medium severity: paragraph 1 says "governed by", which is neither
    "jurisdiction" nor "governing law". *)
Lemma example_not_four_issues :
  length (summarize_issues example_paragraphs "docx" true) ≠ 4
  ∧ Forall (λ i, severity i ≠ "Medium")
           (summarize_issues example_paragraphs "docx" true).
Proof. split; [discriminate|]. by repeat constructor. Qed.

End Summarize.

(** ** Classification and the checklist *)

Section Classifier.
Import PyStr adgm_checklist Spec.

(** C7: classification is a total function into the eight labels, and it
    is the first-match evaluation of the ordered keyword predicates over
    the lower-cased text, with "agreement" as the fallback and Unknown
    otherwise. *)
Theorem classification_total (text : string) :
  detect_doc_type_by_text text ∈ DocumentLabels
  ∧ NoDup DocumentLabels
  ∧ length DocumentLabels = 8
  ∧ detect_doc_type_by_text text = classify text.
Proof.
  split; [|split; [|split; [done|]]].
  - unfold detect_doc_type_by_text; cbv zeta.
    repeat (match goal with
            | |- (if ?c then _ else _) ∈ _ => destruct c
            end);
      unfold DocumentLabels; set_solver.
  - unfold DocumentLabels. repeat (apply NoDup_cons; split; [set_solver|]).
    apply NoDup_nil_2.
  - unfold detect_doc_type_by_text, classify, keyword_rules; cbv zeta.
    cbn [find fst snd].
    repeat (match goal with
            | |- (if ?c then _ else _) = _ => destruct c; [reflexivity|]
            end).
    reflexivity.
Qed.

End Classifier.

Section Checklist.
Import app.

(** C6: checklist verification partitions the required list: a required
    label is present exactly when it is detected and missing exactly when
    it is not; the two lists share no label, their union as sets is the
    required list, each keeps the order of the required list, and they
    depend only on which labels are detected, not on how often. *)
Theorem checklist_partition (required detected : list string) :
  (∀ r, r ∈ present required detected ↔ r ∈ required ∧ r ∈ detected)
  ∧ (∀ r, r ∈ missing required detected ↔ r ∈ required ∧ r ∉ detected)
  ∧ present required detected ## missing required detected
  ∧ (list_to_set (present required detected)
     ∪ list_to_set (missing required detected) : gset string)
    = list_to_set required
  ∧ (list_to_set (present required detected)
     ∩ list_to_set (missing required detected) : gset string) = ∅
  ∧ present required detected `sublist_of` required
  ∧ missing required detected `sublist_of` required
  ∧ present required detected ++ missing required detected ≡ₚ required
  ∧ present required (remove_dups detected) = present required detected
  ∧ missing required (remove_dups detected) = missing required detected.
Proof.
  assert (Hp : ∀ r, r ∈ present required detected ↔ r ∈ required ∧ r ∈ detected).
  { intros r. unfold present. rewrite list_elem_of_filter. tauto. }
  assert (Hm : ∀ r, r ∈ missing required detected ↔ r ∈ required ∧ r ∉ detected).
  { intros r. unfold missing. rewrite list_elem_of_filter. tauto. }
  split; [exact Hp|]. split; [exact Hm|].
  split; [intros r Hr1 Hr2; apply Hp in Hr1; apply Hm in Hr2; tauto|].
  split.
  { apply set_eq. intros r.
    rewrite elem_of_union, !elem_of_list_to_set, Hp, Hm.
    destruct (decide (r ∈ detected)); tauto. }
  split.
  { apply set_eq. intros r.
    rewrite elem_of_intersection, !elem_of_list_to_set, Hp, Hm, elem_of_empty.
    tauto. }
  split; [apply sublist_filter|]. split; [apply sublist_filter|].
  split; [apply filter_app_complement|].
  split; unfold present, missing; apply list_filter_iff; intros r;
    by rewrite elem_of_remove_dups.
Qed.

(** The example of the checklist: required A, B, C with only B detected,
    twice. *)
Example checklist_example :
  present ["A"; "B"; "C"] ["B"; "B"] = ["B"]
  ∧ missing ["A"; "B"; "C"] ["B"; "B"] = ["A"; "C"].
Proof. split; reflexivity. Qed.

End Checklist.

(** ** Reviewed copies *)

Section Reviewed.
Import PyStr docx docx_utils Spec.

Lemma copy_paragraphs_blocks (out : Document) (texts : list string) :
  foldl (λ out text, add_paragraph out text None) out texts
  = {| blocks := blocks out ++ ((λ text, Paragraph text None) <$> (stored <$> texts));
       styles := styles out |}.
Proof.
  revert out. induction texts as [|text texts IH]; intros out; simpl.
  - rewrite app_nil_r. by destruct out.
  - rewrite IH. simpl. by rewrite <- app_assoc.
Qed.

Lemma add_issue_block_eq (out : Document) (idx : nat) (iss : Issue) :
  add_issue_block out idx iss
  = {| blocks := blocks out
                 ++ issue_block (bool_decide ("Intense Quote" ∈ styles out)) idx iss;
       styles := styles out |}.
Proof.
  unfold add_issue_block, issue_block, add_paragraph, add_run_paragraph, add_block;
    cbv zeta.
  destruct (truthy (suggestion iss)), (truthy (citation_key iss)); simpl;
    rewrite <- ?app_assoc; simpl; try done;
    by case_decide; [rewrite bool_decide_eq_true_2|rewrite bool_decide_eq_false_2].
Qed.

Lemma issue_blocks_loop_eq (out : Document) (idx : nat) (issues : list Issue) :
  issue_blocks_loop out idx issues
  = {| blocks := blocks out
                 ++ comments_section (bool_decide ("Intense Quote" ∈ styles out))
                      idx issues;
       styles := styles out |}.
Proof.
  revert out idx. induction issues as [|iss rest IH]; intros out idx; simpl.
  - rewrite app_nil_r. by destruct out.
  - rewrite IH, add_issue_block_eq. simpl. by rewrite <- app_assoc.
Qed.

(** What one call writes, and when it returns. *)
Lemma create_reviewed_docx_eq (env : Env) (original_path reviewed_path : string)
    (issues : list Issue) :
  create_reviewed_docx env original_path reviewed_path issues =
    match files env !! original_path with
    | None => inl ReadError
    | Some src =>
        if decide (reviewed_path ∈ locked env) then inl WriteError
        else inr {| files :=
                      <[reviewed_path :=
                          reviewed_document (template_styles env)
                            (stored <$> paragraphs src) issues]>
                        (files env);
                    locked := locked env;
                    template_styles := template_styles env |}
    end.
Proof.
  unfold create_reviewed_docx, Document_open.
  destruct (files env !! original_path) as [src|]; [|done].
  unfold mbind, result_bind; cbv zeta.
  rewrite copy_paragraphs_blocks.
  unfold add_page_break, add_heading, add_block; simpl.
  change (stored review_heading) with review_heading.
  rewrite issue_blocks_loop_eq; simpl. unfold save; simpl.
  case_decide; [done|]. unfold reviewed_document.
  by rewrite <- !app_assoc.
Qed.

Lemma paragraphs_of_copied (texts : list string) (rest : list Block) :
  block_text <$> (((λ text, Paragraph text None) <$> texts) ++ rest)
  = texts ++ (block_text <$> rest).
Proof.
  rewrite fmap_app. f_equal. rewrite <- list_fmap_compose.
  induction texts as [|text texts IH]; [done|]. rewrite fmap_cons. by f_equal.
Qed.






End Reviewed.

(** ** The batch loops *)

Section Batch.
Import PyStr docx docx_utils app Spec.

Lemma extract_docx_paragraphs_eq (env : Env) (path : string) :
  extract_docx_paragraphs env path =
    match files env !! path with
    | None => inl ReadError
    | Some doc =>
        inr (strip <$> filter (λ text, strip text ≠ EmptyString) (paragraphs doc))
    end.
Proof.
  unfold extract_docx_paragraphs, Document_open.
  by destruct (files env !! path).
Qed.







(** The gathered list is the accumulator followed by each document's own
    list, in upload order. *)
Lemma gather_loop_parts (env : Env) (docs : list Path) (acc all_issues : list Issue) :
  gather_loop env docs acc = inr all_issues →
  ∃ parts, all_issues = acc ++ concat parts ∧ Forall2 (issues_of_doc env) docs parts.
Proof.
  revert acc. induction docs as [|d rest IH]; intros acc; simpl.
  - intros [= <-]. exists []. split; [by rewrite app_nil_r|constructor].
  - destruct (extract_docx_paragraphs env (str d)) as [e|paras] eqn:Hd; [done|].
    intros Hrest. apply IH in Hrest as [parts [-> Hparts]].
    exists (summarize_issues paras (name d) true :: parts).
    split; [by rewrite <- app_assoc|].
    constructor; [by exists paras|done].
Qed.

Lemma elem_of_concat_part {A} (x : A) (l : list A) (ls : list (list A)) :
  x ∈ l → l ∈ ls → x ∈ concat ls.
Proof.
  intros Hx. induction ls as [|l' ls IH]; intros Hl.
  - by apply elem_of_nil in Hl.
  - simpl. apply elem_of_app. apply elem_of_cons in Hl as [<-|Hl]; auto.
Qed.

Lemma gather_loop_elem (env : Env) (docs : list Path) (all_issues : list Issue)
    (q : Path) (paras : list string) (iss : Issue) :
  gather_loop env docs [] = inr all_issues →
  q ∈ docs →
  extract_docx_paragraphs env (str q) = inr paras →
  iss ∈ summarize_issues paras (name q) true →
  iss ∈ all_issues.
Proof.
  intros Hg Hq Hparas Hiss.
  apply gather_loop_parts in Hg as [parts [-> Hparts]]. rewrite app_nil_l.
  apply list_elem_of_lookup in Hq as [n Hn].
  destruct (Forall2_lookup_l _ _ _ _ _ Hparts Hn) as [part [Hpart [paras' [Hp' ->]]]].
  rewrite Hparas in Hp'. injection Hp' as <-.
  eapply elem_of_concat_part; [exact Hiss|]. by eapply list_elem_of_lookup_2.
Qed.

Lemma gather_loop_ok (env : Env) (docs : list Path) (all_issues : list Issue) :
  gather_loop env docs [] = inr all_issues → Forall issue_ok all_issues.
Proof.
  intros Hg. apply gather_loop_parts in Hg as [parts [-> Hparts]].
  rewrite app_nil_l. apply Forall_concat.
  eapply Forall2_Forall_r; [exact Hparts|]. apply Forall_true.
  intros p part [paras [_ ->]]. apply summarize_issues_ok.
Qed.

(** What a run that reaches the export has computed on the way. *)
Lemma run_report_inv (env : Env) (workspace : string) (docs : list Path)
    (process : string) (button : bool) (env' : Env) (report : Report) :
  run env workspace docs process button = inr (env', Some report) →
  ∃ reviewed_files,
    gather_loop env docs [] = inr (issues_found report)
    ∧ export_loop env workspace docs (issues_found report) []
      = inr (env', reviewed_files).
Proof.
  unfold run. case_decide; [done|].
  destruct (parse_loop env docs []) as [e|doc_summaries]; [done|].
  unfold mbind at 1, result_bind at 1; cbv zeta.
  destruct (gather_loop env docs []) as [e|all_issues]; [done|].
  unfold mbind at 1, result_bind at 1.
  destruct button; [|done].
  destruct (export_loop env workspace docs all_issues []) as [e|[env1 files1]] eqn:Hex;
    [done|].
  intros [= <- <-]. by exists files1.
Qed.

(** C9: every issue of a rule, of a document's list and of the batch list
    has a non-empty description, one of the three severities, and a
    citation key, if any, that the citation table holds; the batch list is
    the per-document lists one after the other, and it reaches the report
    as gathered. *)
Theorem issues_well_formed :
  (∀ p, Forall rule_issue_ok (adgm_checklist.check_jurisdiction_paragraph p))
  ∧ (∀ p, Forall rule_issue_ok (adgm_checklist.detect_ambiguous_language p))
  ∧ (∀ paragraphs, Forall rule_issue_ok (adgm_checklist.detect_missing_signature paragraphs))
  ∧ (∀ paragraphs filename check_adgm,
       Forall issue_ok (summarize_issues paragraphs filename check_adgm))
  ∧ (∀ env docs all_issues,
       gather_loop env docs [] = inr all_issues →
       Forall issue_ok all_issues
       ∧ ∃ parts, all_issues = concat parts ∧ Forall2 (issues_of_doc env) docs parts)
  ∧ (∀ env workspace docs process button env' report,
       run env workspace docs process button = inr (env', Some report) →
       gather_loop env docs [] = inr (issues_found report)).
Proof.
  split; [apply check_jurisdiction_paragraph_ok|].
  split; [intros p; apply ambiguous_loop_ok|].
  split; [apply detect_missing_signature_ok|].
  split; [apply summarize_issues_ok|].
  split.
  - intros env docs all_issues Hg. split; [by eapply gather_loop_ok|].
    by apply gather_loop_parts in Hg.
  - intros env workspace docs process button env' report Hrun.
    by apply run_report_inv in Hrun as [reviewed_files [Hg _]].
Qed.

Lemma issues_well_formed_witness :
  ∃ all_issues,
    gather_loop example_env [lease; memo] [] = inr all_issues
    ∧ length all_issues = 2
    ∧ Forall issue_ok all_issues.
Proof.
  destruct (gather_loop example_env [lease; memo] []) as [e|all_issues] eqn:Hg.
  - exfalso. vm_compute in Hg. discriminate Hg.
  - exists all_issues. split; [reflexivity|].
    split; [vm_compute in Hg; injection Hg as <-; reflexivity|].
    exact (proj1 (proj1 (proj2 (proj2 (proj2 (proj2 issues_well_formed))))
                    example_env [lease; memo] all_issues Hg)).
Defined.

Lemma create_reviewed_docx_step (env : Env) (original_path reviewed_path : string)
    (issues : list Issue) (env1 : Env) :
  create_reviewed_docx env original_path reviewed_path issues = inr env1 →
  template_styles env1 = template_styles env
  ∧ reviewed_at env1 reviewed_path issues
  ∧ ∀ key, reviewed_at env key issues → reviewed_at env1 key issues.
Proof.
  rewrite create_reviewed_docx_eq.
  destruct (files env !! original_path) as [src|]; [|done].
  case_decide; [done|]. intros [= <-]. split; [done|]. split.
  - exists (stored <$> paragraphs src). apply lookup_insert_eq.
  - intros key [copied Hkey]. unfold reviewed_at; simpl.
    destruct (decide (reviewed_path = key)) as [->|Hne].
    + exists (stored <$> paragraphs src). apply lookup_insert_eq.
    + exists copied. by rewrite lookup_insert_ne.
Qed.

Lemma export_loop_reviewed (env : Env) (workspace : string) (docs : list Path)
    (issues : list Issue) (acc : list Path) (env' : Env) (reviewed_files : list Path) :
  export_loop env workspace docs issues acc = inr (env', reviewed_files) →
  template_styles env' = template_styles env
  ∧ reviewed_files = acc ++ (reviewed_path workspace <$> docs)
  ∧ (∀ key, reviewed_at env key issues → reviewed_at env' key issues)
  ∧ ∀ p, p ∈ docs → reviewed_at env' (str (reviewed_path workspace p)) issues.
Proof.
  revert env acc. induction docs as [|d rest IH]; intros env acc; simpl.
  - intros [= <- <-]. rewrite app_nil_r. repeat split; [done|].
    intros p Hp. by apply elem_of_nil in Hp.
  - destruct (create_reviewed_docx env (str d) (str (reviewed_path workspace d)) issues)
      as [e|env1] eqn:Hstep; [done|].
    unfold mbind, result_bind.
    intros Hrest. apply IH in Hrest as (Hstyles & -> & Hkeep & Hrest).
    apply create_reviewed_docx_step in Hstep as (Hstyles1 & Hnew & Hkeep1).
    split; [congruence|]. split; [by rewrite <- app_assoc|].
    split; [auto|].
    intros p Hp. apply elem_of_cons in Hp as [->|Hp]; auto.
Qed.

Lemma comments_section_issue (quote : bool) (idx : nat) (issues : list Issue)
    (iss : Issue) :
  iss ∈ issues →
  Paragraph (stored ("Issue: " +:+ issue iss)) None
  ∈ comments_section quote idx issues.
Proof.
  revert idx. induction issues as [|i rest IH]; intros idx Hin.
  - by apply elem_of_nil in Hin.
  - cbn [comments_section]. apply elem_of_app.
    apply elem_of_cons in Hin as [->|Hin]; [left|right; by apply IH].
    unfold issue_block. apply elem_of_app. left.
    apply list_elem_of_further, list_elem_of_here.
Qed.

(** The description of an issue of a rule holds no carriage return, so its
    line in a comments section is stored as written. *)
Lemma rule_issue_line_stored (p : string) (paragraphs : list string) :
  Forall (λ r, stored ("Issue: " +:+ adgm_checklist.issue r)
               = "Issue: " +:+ adgm_checklist.issue r)
         (adgm_checklist.check_jurisdiction_paragraph p
          ++ adgm_checklist.detect_ambiguous_language p
          ++ adgm_checklist.detect_missing_signature paragraphs).
Proof.
  rewrite check_jurisdiction_paragraph_eq.
  unfold adgm_checklist.detect_ambiguous_language,
    adgm_checklist.detect_missing_signature, adgm_checklist.ambig_markers;
    cbv zeta.
  cbn [adgm_checklist.ambiguous_loop].
  repeat (match goal with
          | |- context [if ?c then _ else _] => destruct c
          end);
    by repeat constructor.
Qed.

Lemma summarize_issues_line_stored (paragraphs : list string) (filename : string)
    (check_adgm : bool) :
  Forall (λ x, stored ("Issue: " +:+ issue x) = "Issue: " +:+ issue x)
         (summarize_issues paragraphs filename check_adgm).
Proof.
  rewrite summarize_issues_eq. apply Forall_app. split.
  - apply paragraph_loop_Forall; intros idx p; apply Forall_fmap;
      pose proof (rule_issue_line_stored p []) as H;
      apply Forall_app in H as [Hj [Ha _]%Forall_app]; done.
  - apply Forall_fmap.
    pose proof (rule_issue_line_stored EmptyString paragraphs) as H.
    by apply Forall_app in H as [_ [_ Hs]%Forall_app].
Qed.

(** C10: in a run that exports, every uploaded document has a reviewed copy
    whose comments section is rendered from the one list gathered over the
    whole batch: the block of every issue of every document of the batch is
    in every reviewed copy. *)
Theorem reviewed_copies_render_batch_issues (env : Env) (workspace : string)
    (docs : list Path) (process : string) (button : bool) (env' : Env)
    (report : Report) :
  run env workspace docs process button = inr (env', Some report) →
  gather_loop env docs [] = inr (issues_found report)
  ∧ ∀ p, p ∈ docs →
      ∃ out copied,
        files env' !! str (reviewed_path workspace p) = Some out
        ∧ blocks out =
            ((λ text, Paragraph text None) <$> copied)
            ++ [PageBreak; Heading review_heading 1]
            ++ comments_section (bool_decide ("Intense Quote" ∈ template_styles env))
                 1 (issues_found report)
        ∧ ∀ q paras iss,
            q ∈ docs →
            extract_docx_paragraphs env (str q) = inr paras →
            iss ∈ summarize_issues paras (name q) true →
            Paragraph ("Issue: " +:+ issue iss) None ∈ blocks out.
Proof.
  intros Hrun. apply run_report_inv in Hrun as [reviewed_files [Hg Hex]].
  split; [exact Hg|]. intros p Hp.
  apply export_loop_reviewed in Hex as (Hstyles & _ & _ & Hall).
  destruct (Hall p Hp) as [copied Hout].
  rewrite Hstyles in Hout.
  eexists _, copied. split; [exact Hout|]. split; [done|].
  intros q paras iss Hq Hparas Hiss. simpl.
  apply elem_of_app. right. do 2 apply list_elem_of_further.
  pose proof (summarize_issues_line_stored paras (name q) true) as Hline.
  rewrite Forall_forall in Hline. rewrite <- (Hline iss Hiss).
  apply comments_section_issue. by eapply gather_loop_elem.
Qed.

Lemma reviewed_copies_render_batch_issues_witness :
  ∃ env' report out,
    run example_env example_workspace [lease; memo] company_incorporation true
    = inr (env', Some report)
    ∧ files env' !! str (reviewed_path example_workspace lease) = Some out
    ∧ Paragraph "Issue: Ambiguous/non-binding language found ('may')" None
      ∈ blocks out.
Proof.
  destruct (run example_env example_workspace [lease; memo] company_incorporation true)
    as [e|[env' [report|]]] eqn:Hrun.
  - exfalso. vm_compute in Hrun. discriminate Hrun.
  - destruct (proj2 (reviewed_copies_render_batch_issues _ _ _ _ _ _ _ Hrun)
                lease (list_elem_of_here _ _))
      as (out & copied & Hout & _ & Hall).
    exists env', report, out. split; [reflexivity|]. split; [exact Hout|].
    apply (Hall memo
             [ "Memorandum of Association";
               "The company may possibly issue shares.";
               "Authorized signatory: the director" ]
             (ambiguity_rec "memo.docx" 1 (adgm_checklist.ambiguous_issue "may"))).
    + apply list_elem_of_further, list_elem_of_here.
    + vm_compute. reflexivity.
    + apply list_elem_of_here.
  - exfalso. vm_compute in Hrun. discriminate Hrun.
Defined.

End Batch.

(** ** More on the string operations *)

Section PyStrMore.
Import PyStr Spec.

Lemma lower_char_idem (c : ascii) : lower_char (lower_char c) = lower_char c.
Proof. by destruct c as [[] [] [] [] [] [] [] []]. Qed.

Lemma lower_idem (s : string) : lower (lower s) = lower s.
Proof. induction s as [|c s IH]; simpl; [done|]. by rewrite lower_char_idem, IH. Qed.

Lemma lower_nl : lower nl = nl.
Proof. reflexivity. Qed.

Lemma lower_join (l : list string) : lower (join nl l) = join nl (lower <$> l).
Proof.
  unfold join. induction l as [|x l IH]; [done|].
  destruct l as [|y l]; [done|].
  change (lower (x +:+ nl +:+ String.concat nl (y :: l))
          = lower x +:+ nl +:+ String.concat nl (lower <$> y :: l)).
  by rewrite !lower_app, lower_nl, IH.
Qed.

Lemma lstrip_all_space (s : string) : lstrip s = EmptyString ↔ all_space s = true.
Proof.
  induction s as [|c s IH]; simpl; [done|].
  destruct (isspace c); simpl; [done|]. split; discriminate.
Qed.

Lemma rstrip_all_space (s : string) : rstrip s = EmptyString ↔ all_space s = true.
Proof.
  induction s as [|c s IH]; simpl; [done|].
  destruct (rstrip s) as [|c' r].
  - destruct (isspace c); simpl; [tauto|]. split; discriminate.
  - split; [discriminate|]. intros [_ H]%andb_true_iff. apply IH in H. discriminate.
Qed.

Lemma lstrip_starts_clean (s : string) : starts_clean (lstrip s).
Proof.
  induction s as [|c s IH]; simpl; [done|].
  by destruct (isspace c) eqn:Hc.
Qed.

Lemma lstrip_clean (s : string) : starts_clean s → lstrip s = s.
Proof. destruct s as [|c s]; simpl; [done|]. by intros ->. Qed.

Lemma rstrip_starts_clean (s : string) : starts_clean s → starts_clean (rstrip s).
Proof.
  destruct s as [|c s]; simpl; [done|]. intros Hc.
  destruct (rstrip s); simpl; [by rewrite Hc|done].
Qed.

Lemma rstrip_idem (s : string) : rstrip (rstrip s) = rstrip s.
Proof.
  induction s as [|c s IH]; simpl; [done|].
  destruct (rstrip s) as [|c' r] eqn:Hr.
  - destruct (isspace c) eqn:Hc; simpl; [done|]. by rewrite Hc.
  - change (rstrip (String c (String c' r))) with
      (match rstrip (String c' r) with
       | EmptyString => if isspace c then EmptyString else String c EmptyString
       | r' => String c r'
       end).
    by rewrite IH.
Qed.

Lemma strip_idem (s : string) : strip (strip s) = strip s.
Proof.
  unfold strip.
  rewrite (lstrip_clean (rstrip (lstrip s)))
    by apply rstrip_starts_clean, lstrip_starts_clean.
  apply rstrip_idem.
Qed.

Lemma strip_all_space (s : string) : strip s = EmptyString ↔ all_space s = true.
Proof.
  unfold strip. rewrite rstrip_all_space.
  induction s as [|c s IH]; simpl; [done|].
  destruct (isspace c) eqn:Hc; simpl; [done|]. by rewrite Hc.
Qed.

Lemma length_zero_empty (s : string) : String.length s = 0 ↔ s = EmptyString.
Proof. by destruct s. Qed.

Lemma str_of_nat_inj (n m : nat) : str_of_nat n = str_of_nat m → n = m.
Proof.
  unfold str_of_nat. intros H.
  apply (f_equal DecimalString.NilEmpty.uint_of_string) in H.
  rewrite !DecimalString.NilEmpty.usu in H. injection H as H.
  apply (f_equal Nat.of_uint) in H.
  by rewrite !DecimalNat.Unsigned.of_to in H.
Qed.

Lemma paragraph_section_inj (i j : nat) :
  paragraph_section i = paragraph_section j → i = j.
Proof.
  unfold paragraph_section. intros H. injection H as H.
  apply str_of_nat_inj in H. lia.
Qed.

(** A phrase cannot start across a character it does not contain. *)
Lemma prefix_sep (phrase a b : string) (c : ascii) :
  lacks c phrase = true →
  String.prefix phrase (a +:+ String c b) = String.prefix phrase a.
Proof.
  revert phrase. induction a as [|x a IH]; intros phrase Hc.
  - destruct phrase as [|p phrase]; [done|]. simpl in *.
    apply andb_true_iff in Hc as [Hp _].
    apply negb_true_iff, Ascii.eqb_neq in Hp.
    destruct (ascii_dec p c); congruence.
  - destruct phrase as [|p phrase]; [done|].
    change (String.prefix (String p phrase) (String x (a +:+ String c b))
            = String.prefix (String p phrase) (String x a)).
    simpl in *. apply andb_true_iff in Hc as [_ Hc].
    destruct (ascii_dec p x); [by apply IH|done].
Qed.

(** A phrase occurs in two texts put together around a character it does
    not contain exactly when it occurs in one of the two. *)
Lemma contains_sep (phrase a b : string) (c : ascii) :
  lacks c phrase = true →
  contains phrase (a +:+ String c b) = contains phrase a || contains phrase b.
Proof.
  intros Hc. induction a as [|x a IH].
  - change (contains phrase (String c b)
            = contains phrase EmptyString || contains phrase b).
    cbn [contains]. rewrite orb_false_r.
    by rewrite <- (prefix_sep phrase EmptyString b c Hc).
  - change (contains phrase (String x (a +:+ String c b))
            = contains phrase (String x a) || contains phrase b).
    cbn [contains]. rewrite IH, <- orb_assoc. f_equal.
    exact (prefix_sep phrase (String x a) b c Hc).
Qed.

Lemma contains_empty (phrase : string) :
  phrase ≠ EmptyString → contains phrase EmptyString = false.
Proof. by destruct phrase. Qed.

(** A phrase without a newline occurs in the joined paragraphs exactly when
    it occurs in one of them. *)
Lemma contains_join (phrase : string) (l : list string) :
  phrase ≠ EmptyString →
  lacks "010"%char phrase = true →
  contains phrase (join nl l) = true ↔ ∃ p, p ∈ l ∧ contains phrase p = true.
Proof.
  intros Hne Hnl. unfold join. induction l as [|x l IH].
  - change (String.concat nl []) with EmptyString.
    rewrite contains_empty by done. split; [done|].
    intros [p [Hp _]]. by apply elem_of_nil in Hp.
  - destruct l as [|y l].
    + change (String.concat nl [x]) with x. split.
      * intros Hx. exists x. split; [apply list_elem_of_here|done].
      * intros [p [Hp Hc]]. by apply list_elem_of_singleton in Hp as ->.
    + change (String.concat nl (x :: y :: l))
        with (x +:+ String "010"%char (String.concat nl (y :: l))).
      rewrite contains_sep, orb_true_iff, IH by done. split.
      * intros [Hx|[p [Hp Hc]]].
        -- exists x. split; [apply list_elem_of_here|done].
        -- exists p. split; [by apply list_elem_of_further|done].
      * intros [p [Hp Hc]]. apply elem_of_cons in Hp as [->|Hp]; [by left|].
        right. by exists p.
Qed.

Lemma contains_all_space (phrase s : string) :
  starts_clean phrase → phrase ≠ EmptyString →
  all_space s = true → contains phrase s = false.
Proof.
  intros Hclean Hne. destruct phrase as [|p phrase]; [done|]. simpl in Hclean.
  induction s as [|c s IH]; [done|]. simpl.
  intros [Hc Hs]%andb_true_iff.
  destruct (ascii_dec p c) as [->|_]; [congruence|]. by apply IH.
Qed.

Lemma append_assoc (a b c : string) : (a +:+ b) +:+ c = a +:+ b +:+ c.
Proof.
  induction a as [|x a IH]; [done|].
  change (String x ((a +:+ b) +:+ c) = String x (a +:+ b +:+ c)). by rewrite IH.
Qed.

(** Occurrence is transitive. *)
Lemma contains_trans (a b text : string) :
  contains a b = true → contains b text = true → contains a text = true.
Proof.
  rewrite !contains_spec. intros (pre & post & ->) (pre' & post' & ->).
  exists (pre' +:+ pre), (post +:+ post').
  by rewrite !append_assoc.
Qed.

End PyStrMore.

(** ** More on the classifier and the rules *)

Section RulesMore.
Import PyStr adgm_checklist Spec.

Lemma last_n_fmap {A B} (f : A → B) (n : nat) (l : list A) :
  last_n n (f <$> l) = f <$> last_n n l.
Proof. unfold last_n. by rewrite length_fmap, fmap_drop. Qed.

(** X1: the classifier and the three rules ignore case: each gives the same
    result on a text and on its lower-cased form. *)
Theorem rules_ignore_case (text : string) (paragraphs : list string) :
  detect_doc_type_by_text (lower text) = detect_doc_type_by_text text
  ∧ check_jurisdiction_paragraph (lower text) = check_jurisdiction_paragraph text
  ∧ detect_ambiguous_language (lower text) = detect_ambiguous_language text
  ∧ detect_missing_signature (lower <$> paragraphs)
    = detect_missing_signature paragraphs.
Proof.
  unfold detect_doc_type_by_text, check_jurisdiction_paragraph,
    detect_ambiguous_language, detect_missing_signature; cbv zeta.
  rewrite !lower_idem, last_n_fmap, <- lower_join, lower_idem. done.
Qed.

Lemma detect_doc_type_in_labels (text : string) :
  detect_doc_type_by_text text ∈ DocumentLabels.
Proof.
  unfold detect_doc_type_by_text; cbv zeta.
  repeat (match goal with
          | |- (if ?c then _ else _) ∈ _ => destruct c
          end);
    unfold DocumentLabels; set_solver.
Qed.

(** X2: each of the eight labels is classified as itself, so classifying
    the label of a text gives that label again. *)
Theorem classification_idempotent (text : string) :
  detect_doc_type_by_text (detect_doc_type_by_text text)
  = detect_doc_type_by_text text.
Proof.
  assert (Hfix : Forall (λ l, detect_doc_type_by_text l = l) DocumentLabels)
    by (repeat constructor).
  rewrite Forall_forall in Hfix. apply Hfix, detect_doc_type_in_labels.
Qed.

(** X3: a text is labelled Articles of Association exactly when it mentions
    both "article" and "association", wherever they stand; a text is
    labelled Memorandum of Association exactly when it mentions
    "memorandum" and not both of those words. *)
Theorem articles_label_takes_precedence (text : string) :
  (detect_doc_type_by_text text = "Articles of Association"
   ↔ contains "article" (lower text) = true
     ∧ contains "association" (lower text) = true)
  ∧ (detect_doc_type_by_text text = "Memorandum of Association"
     ↔ contains "memorandum" (lower text) = true
       ∧ ¬ (contains "article" (lower text) = true
            ∧ contains "association" (lower text) = true)).
Proof.
  assert (Hphrase : contains "articles of association" (lower text) = true →
                    contains "article" (lower text) = true
                    ∧ contains "association" (lower text) = true).
  { intros H. split; (eapply contains_trans; [|exact H]); reflexivity. }
  assert (Hmemo : contains "memorandum of association" (lower text) = true →
                  contains "memorandum" (lower text) = true).
  { intros H. eapply contains_trans; [|exact H]. reflexivity. }
  unfold detect_doc_type_by_text; cbv zeta.
  destruct (contains "articles of association" (lower text)),
    (contains "article" (lower text)), (contains "association" (lower text));
    try (by destruct Hphrase); simpl;
    destruct (contains "memorandum of association" (lower text)),
      (contains "memorandum" (lower text)); try (by discriminate Hmemo); simpl;
    repeat (match goal with
            | |- context [if ?c then _ else _] => destruct c
            end);
    (split; split; [intros ?|intros [? ?]|intros ?|intros [? ?]]);
    try discriminate; try done; try (split; [done|]; intros [? ?]; discriminate);
    try (exfalso; tauto).
Qed.

End RulesMore.

Section SignatureMore.
Import PyStr adgm_checklist Spec.

Lemma last_n_app {A} (n : nat) (pre l : list A) :
  n ≤ length l → last_n n (pre ++ l) = last_n n l.
Proof.
  intros Hn. unfold last_n. rewrite length_app.
  replace (length pre + length l - n) with (length pre + (length l - n)) by lia.
  apply drop_app_add.
Qed.

(** X4: the signature rule reads the last ten paragraphs only: whatever
    stands before the last ten paragraphs of a document does not change its
    result. *)
Theorem signature_rule_window (before paragraphs : list string) :
  10 ≤ length paragraphs →
  detect_missing_signature (before ++ paragraphs)
  = detect_missing_signature paragraphs.
Proof.
  intros Hlen. unfold detect_missing_signature; cbv zeta.
  by rewrite last_n_app.
Qed.

Lemma signature_rule_window_witness :
  10 ≤ length (replicate 10 "Clause text.")
  ∧ detect_missing_signature (["Signed by the director."] ++ replicate 10 "Clause text.")
    = detect_missing_signature (replicate 10 "Clause text.")
  ∧ detect_missing_signature (replicate 10 "Clause text.") = [missing_signature_issue].
Proof.
  assert (Hlen : 10 ≤ length (replicate 10 "Clause text.")) by (simpl; lia).
  split; [exact Hlen|]. split; [|reflexivity].
  exact (signature_rule_window ["Signed by the director."]
           (replicate 10 "Clause text.") Hlen).
Defined.

Lemma signature_phrase_in_tail (phrase : string) (l : list string) :
  phrase ≠ EmptyString →
  lacks "010"%char phrase = true →
  contains phrase (lower (join nl l)) = true
  ↔ ∃ p, p ∈ l ∧ contains phrase (lower p) = true.
Proof.
  intros Hne Hnl. rewrite lower_join, contains_join by done. split.
  - intros [q [Hq Hc]]. apply list_elem_of_fmap in Hq as [p [-> Hp]]. by exists p.
  - intros [p [Hp Hc]]. exists (lower p). split; [|done].
    by apply list_elem_of_fmap_2.
Qed.

(** X5: the signature rule is silent exactly when one of the last ten
    paragraphs contains, in its lower-cased text, one of the three phrases;
    in every other case it returns the one missing-signature issue. No
    phrase is found across two paragraphs. *)
Theorem signature_rule_paragraphwise (paragraphs : list string) :
  (detect_missing_signature paragraphs = []
   ↔ ∃ p phrase,
       p ∈ last_n 10 paragraphs
       ∧ phrase ∈ signature_phrases
       ∧ contains phrase (lower p) = true)
  ∧ (detect_missing_signature paragraphs = []
     ∨ detect_missing_signature paragraphs = [missing_signature_issue]).
Proof.
  unfold detect_missing_signature; cbv zeta.
  pose proof (signature_phrase_in_tail "signature" (last_n 10 paragraphs)) as H1.
  pose proof (signature_phrase_in_tail "signed" (last_n 10 paragraphs)) as H2.
  pose proof (signature_phrase_in_tail "authorized signatory" (last_n 10 paragraphs))
    as H3.
  specialize (H1 ltac:(discriminate) eq_refl).
  specialize (H2 ltac:(discriminate) eq_refl).
  specialize (H3 ltac:(discriminate) eq_refl).
  assert (Hnone :
    (∃ p phrase, p ∈ last_n 10 paragraphs ∧ phrase ∈ signature_phrases
                 ∧ contains phrase (lower p) = true)
    ↔ contains "signature" (lower (join nl (last_n 10 paragraphs))) = true
      ∨ contains "signed" (lower (join nl (last_n 10 paragraphs))) = true
      ∨ contains "authorized signatory" (lower (join nl (last_n 10 paragraphs))) = true).
  { rewrite H1, H2, H3. unfold signature_phrases. split.
    - intros (p & phrase & Hp & Hphrase & Hc).
      repeat (apply elem_of_cons in Hphrase as [->|Hphrase]); eauto 6.
      by apply elem_of_nil in Hphrase.
    - intros [[p [Hp Hc]]|[[p [Hp Hc]]|[p [Hp Hc]]]]; eexists p, _;
        (split; [exact Hp|]); (split; [|exact Hc]).
      + apply list_elem_of_here.
      + apply list_elem_of_further, list_elem_of_here.
      + do 2 apply list_elem_of_further. apply list_elem_of_here. }
  rewrite Hnone.
  destruct (contains "signature" _), (contains "signed" _),
    (contains "authorized signatory" _); simpl;
    (split; [split; [intros ?|intros ?]|]); try discriminate; try done;
    try tauto; try (by left); try (by right);
    try (exfalso; naive_solver).
Qed.

End SignatureMore.

(** ** More on the issues of one document *)

Section SummarizeMore.
Import PyStr docx docx_utils Spec.

Lemma paragraph_loop_step (filename : string) (idx : nat) (p : string)
    (rest : list string) :
  paragraph_loop filename idx (p :: rest) []
  = paragraph_issues filename idx p ++ paragraph_loop filename (S idx) rest [].
Proof.
  rewrite paragraph_loop_cons, paragraph_loop_acc, app_nil_l.
  unfold paragraph_issues. by case_decide.
Qed.

Lemma paragraph_issues_labels (filename : string) (idx : nat) (p : string) :
  Forall (λ x, document x = filename ∧ section x = paragraph_section idx)
         (paragraph_issues filename idx p).
Proof.
  unfold paragraph_issues. case_decide; [constructor|].
  apply Forall_app. split; apply Forall_fmap, Forall_true; by intros r.
Qed.

Lemma paragraph_issues_length (filename : string) (idx : nat) (p : string) :
  length (paragraph_issues filename idx p) ≤ 3.
Proof.
  unfold paragraph_issues. case_decide; [simpl; lia|].
  rewrite length_app, !length_fmap, check_jurisdiction_paragraph_eq.
  assert (length (adgm_checklist.detect_ambiguous_language p) ≤ 1).
  { unfold adgm_checklist.detect_ambiguous_language; cbv zeta.
    induction adgm_checklist.ambig_markers as [|m rest IH]; simpl; [lia|].
    destruct (_ && _); simpl; lia. }
  rewrite length_app.
  destruct (_ || _), (negb _ && _); simpl; lia.
Qed.

Lemma paragraph_loop_elem (filename : string) (idx : nat) (paragraphs : list string)
    (x : Issue) :
  x ∈ paragraph_loop filename idx paragraphs []
  ↔ ∃ i p, paragraphs !! i = Some p ∧ x ∈ paragraph_issues filename (idx + i) p.
Proof.
  revert idx. induction paragraphs as [|q rest IH]; intros idx.
  - simpl. split; [by intros ?%elem_of_nil|]. by intros (i & p & Hi & _).
  - rewrite paragraph_loop_step, elem_of_app, IH. split.
    + intros [Hx|(i & p & Hi & Hx)].
      * exists 0, q. by rewrite Nat.add_0_r.
      * exists (S i), p. split; [done|]. by replace (idx + S i) with (S idx + i) by lia.
    + intros ([|i] & p & Hi & Hx).
      * injection Hi as <-. left. by rewrite Nat.add_0_r in Hx.
      * right. exists i, p. split; [done|].
        by replace (S idx + i) with (idx + S i) by lia.
Qed.

Lemma paragraph_loop_filter (filename : string) (idx i : nat)
    (paragraphs : list string) :
  filter (λ x, section x = paragraph_section (idx + i))
         (paragraph_loop filename idx paragraphs [])
  = from_option (paragraph_issues filename (idx + i)) [] (paragraphs !! i).
Proof.
  revert idx i. induction paragraphs as [|q rest IH]; intros idx i; [done|].
  rewrite paragraph_loop_step, filter_app. destruct i as [|i].
  - rewrite Nat.add_0_r. simpl.
    assert (Hrest : filter (λ x, section x = paragraph_section idx)
                           (paragraph_loop filename (S idx) rest []) = []).
    { apply filter_none, Forall_forall. intros x Hx.
      apply paragraph_loop_elem in Hx as (j & p & _ & Hx).
      pose proof (paragraph_issues_labels filename (S idx + j) p) as Hl.
      rewrite Forall_forall in Hl. destruct (Hl x Hx) as [_ ->].
      intros Heq%paragraph_section_inj. lia. }
    rewrite Hrest, app_nil_r.
    assert (Hall : Forall (λ x, section x = paragraph_section idx)
                          (paragraph_issues filename idx q)).
    { eapply Forall_impl; [apply paragraph_issues_labels|]. by intros x [_ ?]. }
    induction Hall as [|x l Hx Hl IHl]; [done|].
    by rewrite filter_cons_True, IHl.
  - replace (idx + S i) with (S idx + i) by lia. rewrite IH. simpl.
    rewrite filter_none; [done|].
    eapply Forall_impl; [apply paragraph_issues_labels|].
    intros x [_ ->] Heq%paragraph_section_inj. lia.
Qed.

(** X6: the section label of an issue identifies its paragraph: the issues
    of a document labelled "Paragraph i+1" are exactly the issues the
    rules give for the paragraph at index i, in the order jurisdiction then
    ambiguity, and there are none for an index outside the document. *)
Theorem section_identifies_paragraph (paragraphs : list string) (filename : string)
    (check_adgm : bool) (i : nat) :
  filter (λ x, section x = paragraph_section i)
         (summarize_issues paragraphs filename check_adgm)
  = from_option (paragraph_issues filename i) [] (paragraphs !! i).
Proof.
  rewrite summarize_issues_eq, filter_app.
  pose proof (paragraph_loop_filter filename 0 i paragraphs) as Hloop.
  rewrite Nat.add_0_l in Hloop. rewrite Hloop.
  rewrite filter_none, app_nil_r; [done|].
  apply Forall_fmap, Forall_true. intros r. simpl. discriminate.
Qed.

(** X7: every issue of a document carries the file name it was given, and
    its section is either "End of Document" or the label of one of the
    document's paragraphs. *)
Theorem issues_name_document_and_section (paragraphs : list string)
    (filename : string) (check_adgm : bool) :
  Forall (λ x, document x = filename
               ∧ (section x = "End of Document"
                  ∨ ∃ i, i < length paragraphs ∧ section x = paragraph_section i))
         (summarize_issues paragraphs filename check_adgm).
Proof.
  rewrite summarize_issues_eq. apply Forall_app. split.
  - apply Forall_forall. intros x Hx.
    apply paragraph_loop_elem in Hx as (i & p & Hi & Hx).
    pose proof (paragraph_issues_labels filename (0 + i) p) as Hl.
    rewrite Forall_forall in Hl. destruct (Hl x Hx) as [Hdoc Hsec].
    split; [done|]. right. exists i. split; [by eapply lookup_lt_Some|done].
  - apply Forall_fmap, Forall_true. intros r. split; [done|by left].
Qed.

(** X8: a document of n paragraphs has at most 3n + 1 issues. *)
Theorem issue_count_bound (paragraphs : list string) (filename : string)
    (check_adgm : bool) :
  length (summarize_issues paragraphs filename check_adgm)
  ≤ 3 * length paragraphs + 1.
Proof.
  rewrite summarize_issues_eq, length_app, length_fmap.
  assert (Hloop : ∀ idx, length (paragraph_loop filename idx paragraphs [])
                         ≤ 3 * length paragraphs).
  { induction paragraphs as [|p rest IH]; intros idx; [simpl; lia|].
    rewrite paragraph_loop_step, length_app. simpl.
    pose proof (paragraph_issues_length filename idx p).
    pose proof (IH (S idx)). lia. }
  assert (Hsig : length (adgm_checklist.detect_missing_signature paragraphs) ≤ 1).
  { unfold adgm_checklist.detect_missing_signature; cbv zeta.
    destruct (_ && _); simpl; lia. }
  pose proof (Hloop 0). lia.
Qed.

End SummarizeMore.

Section BlankAndExtract.
Import PyStr docx docx_utils Spec.

Lemma all_space_lower (s : string) : all_space (lower s) = all_space s.
Proof.
  induction s as [|c s IH]; simpl; [done|]. by rewrite isspace_lower_char, IH.
Qed.

Lemma all_space_app (s t : string) :
  all_space (s +:+ t) = all_space s && all_space t.
Proof.
  induction s as [|c s IH]; [done|].
  change (all_space (String c (s +:+ t)) = all_space (String c s) && all_space t).
  simpl. by rewrite IH, andb_assoc.
Qed.

Lemma all_space_join (l : list string) :
  Forall (λ p, all_space p = true) l → all_space (join nl l) = true.
Proof.
  unfold join. induction 1 as [|x l Hx Hl IH]; [done|].
  destruct l as [|y l]; [done|].
  change (all_space (x +:+ nl +:+ String.concat nl (y :: l)) = true).
  by rewrite !all_space_app, Hx, IH.
Qed.

(** X9: a document whose paragraphs are all empty or white space, the
    document without paragraphs included, gets exactly one issue, the
    missing-signature issue. *)
Theorem blank_document_single_issue (paragraphs : list string) (filename : string)
    (check_adgm : bool) :
  Forall (λ p, all_space p = true) paragraphs →
  summarize_issues paragraphs filename check_adgm
  = [signature_rec filename adgm_checklist.missing_signature_issue].
Proof.
  intros Hblank. rewrite summarize_issues_eq.
  assert (Hloop : ∀ idx, paragraph_loop filename idx paragraphs [] = []).
  { induction Hblank as [|p rest Hp Hrest IH]; intros idx; [done|].
    rewrite paragraph_loop_step, IH, app_nil_r. unfold paragraph_issues.
    apply strip_all_space in Hp. rewrite Hp. done. }
  rewrite Hloop, app_nil_l.
  unfold adgm_checklist.detect_missing_signature; cbv zeta.
  assert (Htail : all_space (lower (join nl (last_n 10 paragraphs))) = true).
  { rewrite all_space_lower. apply all_space_join.
    destruct (last_n_suffix 10 paragraphs) as [before Heq].
    rewrite Heq in Hblank. by apply Forall_app in Hblank as [_ ?]. }
  by rewrite !contains_all_space.
Qed.

Lemma blank_document_single_issue_witness :
  Forall (λ p, all_space p = true) [EmptyString; "   "]
  ∧ summarize_issues [EmptyString; "   "] "empty.docx" true
    = [signature_rec "empty.docx" adgm_checklist.missing_signature_issue].
Proof.
  assert (Hblank : Forall (λ p, all_space p = true) [EmptyString; "   "])
    by (repeat constructor).
  split; [exact Hblank|].
  exact (blank_document_single_issue [EmptyString; "   "] "empty.docx" true Hblank).
Defined.

(** X10: what extraction returns is clean: no paragraph is empty or white
    space, none has white space at either end, and there are no more of them
    than the document has paragraphs; so the loop over them skips none. *)
Theorem extracted_paragraphs_clean (env : Env) (path : string) (paras : list string) :
  extract_docx_paragraphs env path = inr paras →
  (∃ doc, files env !! path = Some doc ∧ length paras ≤ length (paragraphs doc))
  ∧ Forall (λ p, p ≠ EmptyString ∧ strip p = p ∧ all_space p = false
                 ∧ String.length (strip p) ≠ 0) paras.
Proof.
  rewrite extract_docx_paragraphs_eq.
  destruct (files env !! path) as [doc|]; [|done]. intros [= <-]. split.
  - exists doc. split; [done|]. rewrite length_fmap. apply length_filter.
  - apply Forall_fmap, Forall_forall. intros text [Hne _]%list_elem_of_filter.
    simpl. rewrite strip_idem.
    split; [done|]. split; [done|]. split.
    + destruct (all_space (strip text)) eqn:Hs; [|done].
      apply strip_all_space in Hs. by rewrite strip_idem in Hs.
    + by rewrite length_zero_empty.
Qed.

Lemma extracted_paragraphs_clean_witness :
  extract_docx_paragraphs example_env (app.str memo)
  = inr [ "Memorandum of Association";
          "The company may possibly issue shares.";
          "Authorized signatory: the director" ]
  ∧ Forall (λ p, p ≠ EmptyString ∧ strip p = p ∧ all_space p = false
                 ∧ String.length (strip p) ≠ 0)
      [ "Memorandum of Association";
        "The company may possibly issue shares.";
        "Authorized signatory: the director" ].
Proof.
  assert (Hex : extract_docx_paragraphs example_env (app.str memo)
                = inr [ "Memorandum of Association";
                        "The company may possibly issue shares.";
                        "Authorized signatory: the director" ])
    by (vm_compute; reflexivity).
  split; [exact Hex|].
  exact (proj2 (extracted_paragraphs_clean example_env (app.str memo) _ Hex)).
Defined.

End BlankAndExtract.

Section AmbiguityMore.
Import PyStr adgm_checklist Spec.

(** X11: the marker "may" is matched as a piece of text, not as a word: a
    paragraph of fewer than 200 words in which "may" occurs anywhere, case
    ignored, inside a longer word included, gets the ambiguity issue naming
    "may", whatever other markers it has. *)
Theorem may_matches_inside_words (p : string) :
  occurs_ignoring_case "may" p →
  length (split p) < 200 →
  detect_ambiguous_language p = [ambiguous_issue "may"].
Proof.
  intros Hmay%contains_lower_spec Hwords.
  unfold detect_ambiguous_language; cbv zeta.
  rewrite <- split_lower_length in Hwords.
  unfold ambig_markers. cbn [ambiguous_loop].
  by rewrite Hmay, (bool_decide_eq_true_2 _ Hwords).
Qed.

Lemma may_matches_inside_words_witness :
  occurs_ignoring_case "may" "The Mayor shall attend, subject to notice."
  ∧ detect_ambiguous_language "The Mayor shall attend, subject to notice."
    = [ambiguous_issue "may"].
Proof.
  assert (Hmay : occurs_ignoring_case "may" "The Mayor shall attend, subject to notice.")
    by (by exists "The ", "May", "or shall attend, subject to notice.").
  split; [exact Hmay|].
  apply (may_matches_inside_words _ Hmay). vm_compute. lia.
Defined.

End AmbiguityMore.

(** ** More on reviewed copies *)

Section ReviewedMore.
Import PyStr docx docx_utils Spec.



Lemma clean_texts_app (l k : list string) :
  clean_texts (l ++ k) = clean_texts l ++ clean_texts k.
Proof. unfold clean_texts. by rewrite filter_app, fmap_app. Qed.

Lemma isspace_stored_char (c : ascii) : isspace (stored_char c) = isspace c.
Proof. by destruct c as [[] [] [] [] [] [] [] []]. Qed.

Lemma lstrip_stored (s : string) : lstrip (stored s) = stored (lstrip s).
Proof.
  induction s as [|c s IH]; [done|]. cbn [stored lstrip].
  rewrite isspace_stored_char. by destruct (isspace c).
Qed.

Lemma rstrip_stored (s : string) : rstrip (stored s) = stored (rstrip s).
Proof.
  induction s as [|c s IH]; [done|]. cbn [stored rstrip].
  rewrite IH, isspace_stored_char.
  destruct (rstrip s); cbn [stored]; [by destruct (isspace c)|done].
Qed.

Lemma strip_stored (s : string) : strip (stored s) = stored (strip s).
Proof. unfold strip. by rewrite lstrip_stored, rstrip_stored. Qed.

Lemma stored_empty (s : string) : stored s = EmptyString ↔ s = EmptyString.
Proof. by destruct s. Qed.

Lemma clean_texts_stored (l : list string) :
  clean_texts (stored <$> l) = stored <$> clean_texts l.
Proof.
  unfold clean_texts. induction l as [|text l IH]; [done|].
  rewrite fmap_cons. destruct (decide (strip text = EmptyString)) as [He|Hne].
  - rewrite !filter_cons_False; [done| |].
    + by intros H.
    + rewrite strip_stored, He. by intros H.
  - rewrite !filter_cons_True; [|done|].
    + rewrite !fmap_cons, IH. by rewrite strip_stored.
    + by rewrite strip_stored, stored_empty.
Qed.

(** X13: extraction reads the original text back from a reviewed copy: the
    paragraphs extracted from the copy are those extracted from the
    original, each as stored (a carriage return reads back as a newline),
    then the heading, then the texts of the comments section; the
    page-break paragraph, being empty, is not among them. *)
Theorem reviewed_copy_keeps_text (env env' : Env) (original_path reviewed_path : string)
    (issues : list Issue) :
  create_reviewed_docx env original_path reviewed_path issues = inr env' →
  ∃ paras,
    extract_docx_paragraphs env original_path = inr paras
    ∧ extract_docx_paragraphs env' reviewed_path =
        inr ((stored <$> paras)
             ++ review_heading
                :: clean_texts
                     (block_text
                        <$> comments_section
                              (bool_decide ("Intense Quote" ∈ template_styles env))
                              1 issues)).
Proof.
  rewrite create_reviewed_docx_eq, !extract_docx_paragraphs_eq.
  destruct (files env !! original_path) as [src|]; [|done].
  case_decide; [done|]. intros [= <-]. simpl.
  eexists. split; [done|]. rewrite lookup_insert_eq. f_equal.
  unfold paragraphs at 1, reviewed_document. cbn [blocks].
  rewrite paragraphs_of_copied.
  change (strip <$> filter (λ text, strip text ≠ EmptyString) ?l)
    with (clean_texts l).
  rewrite clean_texts_app, clean_texts_stored. by f_equal.
Qed.

Lemma reviewed_copy_keeps_text_witness :
  ∃ env',
    create_reviewed_docx carriage_env (app.str two_lines)
      (app.str (app.reviewed_path example_workspace two_lines)) [] = inr env'
    ∧ extract_docx_paragraphs carriage_env (app.str two_lines)
      = inr [ "first" +:+ String "013"%char "second" ]
    ∧ extract_docx_paragraphs env'
        (app.str (app.reviewed_path example_workspace two_lines))
      = inr [ "first" +:+ nl +:+ "second"; review_heading ].
Proof.
  destruct (create_reviewed_docx carriage_env (app.str two_lines)
              (app.str (app.reviewed_path example_workspace two_lines)) [])
    as [e|env'] eqn:Hcall.
  - exfalso. vm_compute in Hcall. discriminate Hcall.
  - destruct (reviewed_copy_keeps_text _ _ _ _ _ Hcall) as [paras [Hparas Hcopy]].
    exists env'. split; [reflexivity|]. split; [vm_compute; reflexivity|].
    rewrite Hcopy. vm_compute in Hparas. injection Hparas as <-. reflexivity.
Defined.

End ReviewedMore.

(** ** More on the batch loops *)

Section BatchMore.
Import PyStr docx docx_utils app Spec.

Lemma parse_loop_parts (env : Env) (docs : list Path) (acc sums : list DocSummary) :
  parse_loop env docs acc = inr sums →
  ∃ new, sums = acc ++ new ∧ Forall2 (summary_of env) docs new.
Proof.
  revert acc. induction docs as [|d rest IH]; intros acc; simpl.
  - intros [= <-]. exists []. split; [by rewrite app_nil_r|constructor].
  - destruct (extract_docx_paragraphs env (str d)) as [e|paras] eqn:Hd; [done|].
    intros Hrest. apply IH in Hrest as [new [-> Hnew]].
    eexists (_ :: new). split; [by rewrite <- app_assoc|].
    constructor; [by exists paras|done].
Qed.

(** X14: when the parsing loop returns, it has made one summary per upload,
    in upload order: each has the upload's name and path, the number of
    extracted paragraphs, and as type the label of the extracted text joined
    by newlines, which is one of the eight labels. *)
Theorem parse_summaries (env : Env) (docs : list Path) (doc_summaries : list DocSummary) :
  parse_loop env docs [] = inr doc_summaries →
  Forall2 (summary_of env) docs doc_summaries
  ∧ filename <$> doc_summaries = name <$> docs
  ∧ Forall (λ s, detected_type s ∈ DocumentLabels) doc_summaries.
Proof.
  intros [new [-> Hnew]]%parse_loop_parts. rewrite app_nil_l.
  split; [done|]. split.
  - induction Hnew as [|p s ps ss [paras [_ ->]] _ IH]; [done|].
    rewrite !fmap_cons. by f_equal.
  - eapply Forall2_Forall_r; [exact Hnew|]. apply Forall_true.
    intros p s [paras [_ ->]]. apply detect_doc_type_in_labels.
Qed.

Lemma parse_summaries_witness :
  ∃ doc_summaries,
    parse_loop example_env [lease; memo] [] = inr doc_summaries
    ∧ filename <$> doc_summaries = ["lease.docx"; "memo.docx"]
    ∧ detected_type <$> doc_summaries
      = ["Commercial Agreement"; "Memorandum of Association"].
Proof.
  destruct (parse_loop example_env [lease; memo] []) as [e|sums] eqn:Hparse.
  - exfalso. vm_compute in Hparse. discriminate Hparse.
  - exists sums. split; [reflexivity|]. split.
    + exact (proj1 (proj2 (parse_summaries _ _ _ Hparse))).
    + vm_compute in Hparse. injection Hparse as <-. reflexivity.
Defined.

End BatchMore.

Section ExportMore.
Import PyStr docx docx_utils app Spec.

Lemma export_loop_frame (env : Env) (workspace : string) (docs : list Path)
    (issues : list Issue) (acc : list Path) (env' : Env) (reviewed_files : list Path) :
  export_loop env workspace docs issues acc = inr (env', reviewed_files) →
  locked env' = locked env
  ∧ ∀ key, (∀ p, p ∈ docs → key ≠ str (reviewed_path workspace p)) →
           files env' !! key = files env !! key.
Proof.
  revert env acc. induction docs as [|d rest IH]; intros env acc; simpl.
  - by intros [= <- <-].
  - rewrite create_reviewed_docx_eq.
    destruct (files env !! str d) as [src|]; [|done].
    case_decide; [done|]. unfold mbind, result_bind.
    intros [Hlock Hkeys]%IH. simpl in *. split; [done|].
    intros key Hkey. rewrite Hkeys.
    + rewrite lookup_insert_ne; [done|]. intros Heq.
      by apply (Hkey d (list_elem_of_here _ _)).
    + intros p Hp. by apply Hkey, list_elem_of_further.
Qed.

(** X17: the export loop changes no file but the reviewed copies: when it
    returns, every path that is not the destination of the reviewed copy of
    an upload holds what it held before, the locks are as before, and the
    reviewed files are the destinations of the uploads in upload order. *)
Theorem export_touches_only_reviewed_paths (env env' : Env) (workspace : string)
    (docs : list Path) (all_issues : list Issue) (reviewed_files : list Path)
    (key : string) :
  export_loop env workspace docs all_issues [] = inr (env', reviewed_files) →
  (∀ p, p ∈ docs → key ≠ str (reviewed_path workspace p)) →
  files env' !! key = files env !! key
  ∧ locked env' = locked env
  ∧ reviewed_files = reviewed_path workspace <$> docs.
Proof.
  intros Hex Hkey.
  pose proof (export_loop_frame _ _ _ _ _ _ _ Hex) as [Hlock Hkeys].
  apply export_loop_reviewed in Hex as (_ & Hfiles & _).
  split; [by apply Hkeys|]. split; [done|]. by rewrite Hfiles.
Qed.

Lemma export_touches_only_reviewed_paths_witness :
  ∃ env' reviewed_files,
    export_loop example_env example_workspace [lease; memo] [] []
    = inr (env', reviewed_files)
    ∧ files env' !! str lease = files example_env !! str lease
    ∧ reviewed_files
      = [reviewed_path example_workspace lease; reviewed_path example_workspace memo].
Proof.
  destruct (export_loop example_env example_workspace [lease; memo] [] [])
    as [e|[env' reviewed_files]] eqn:Hex.
  - exfalso. vm_compute in Hex. discriminate Hex.
  - exists env', reviewed_files. split; [reflexivity|].
    destruct (export_touches_only_reviewed_paths _ _ _ _ _ _ (str lease) Hex)
      as (Hkeep & _ & Hfiles).
    + intros p Hp. vm_compute. discriminate.
    + split; [exact Hkeep|exact Hfiles].
Defined.

(** X18: an upload that bears the name of the reviewed copy of another
    upload of the batch is overwritten by the export: after the run its
    path holds a reviewed copy with the comments section of the batch. *)
Theorem clashing_upload_overwritten (env env' : Env) (workspace : string)
    (docs : list Path) (process : string) (button : bool) (report : Report)
    (p q : Path) :
  run env workspace docs process button = inr (env', Some report) →
  p ∈ docs →
  parent q = workspace →
  name q = "reviewed_" +:+ name p →
  reviewed_at env' (str q) (issues_found report).
Proof.
  intros [reviewed_files [_ Hex]]%run_report_inv Hp Hparent Hname.
  apply export_loop_reviewed in Hex as (_ & _ & _ & Hall).
  replace (str q) with (str (reviewed_path workspace p)); [by apply Hall|].
  unfold str, reviewed_path. simpl. by rewrite Hparent, Hname.
Qed.

Lemma clashing_upload_overwritten_witness :
  ∃ env' report out,
    run clashing_env example_workspace [draft; reviewed_draft]
      company_incorporation true = inr (env', Some report)
    ∧ files env' !! str reviewed_draft = Some out
    ∧ Heading review_heading 1 ∈ blocks out
    ∧ files clashing_env !! str reviewed_draft = Some (doc_of ["Signature page"]).
Proof.
  destruct (run clashing_env example_workspace [draft; reviewed_draft]
              company_incorporation true) as [e|[env' [report|]]] eqn:Hrun.
  - exfalso. vm_compute in Hrun. discriminate Hrun.
  - destruct (clashing_upload_overwritten _ _ _ _ _ _ _ draft reviewed_draft Hrun)
      as [copied Hout].
    + apply list_elem_of_here.
    + reflexivity.
    + reflexivity.
    + exists env', report. eexists. split; [reflexivity|]. split; [exact Hout|].
      split; [|vm_compute; reflexivity].
      unfold reviewed_document. cbn [blocks].
      apply elem_of_app. right. apply list_elem_of_further, list_elem_of_here.
  - exfalso. vm_compute in Hrun. discriminate Hrun.
Defined.

Lemma summarize_issues_document (paragraphs : list string) (filename : string)
    (check_adgm : bool) :
  Forall (λ x, document x = filename) (summarize_issues paragraphs filename check_adgm).
Proof.
  rewrite summarize_issues_eq. apply Forall_app. split.
  - apply paragraph_loop_Forall; intros idx p; by apply Forall_fmap, Forall_true.
  - by apply Forall_fmap, Forall_true.
Qed.

(** X19: every issue of the batch list names an upload of the batch as its
    document. *)
Theorem batch_issues_name_uploads (env : Env) (docs : list Path)
    (all_issues : list Issue) :
  gather_loop env docs [] = inr all_issues →
  Forall (λ x, ∃ p, p ∈ docs ∧ document x = name p) all_issues.
Proof.
  intros [parts [-> Hparts]]%gather_loop_parts. rewrite app_nil_l.
  apply Forall_concat.
  induction Hparts as [|p part ps parts' [paras [_ ->]] _ IH]; [constructor|].
  constructor.
  - eapply Forall_impl; [apply summarize_issues_document|].
    intros x Hx. exists p. split; [apply list_elem_of_here|done].
  - eapply Forall_impl; [exact IH|]. intros part' Hpart'.
    eapply Forall_impl; [exact Hpart'|].
    intros x [p' [Hp' Hx]]. exists p'. split; [by apply list_elem_of_further|done].
Qed.

Lemma batch_issues_name_uploads_witness :
  ∃ all_issues,
    gather_loop example_env [lease; memo] [] = inr all_issues
    ∧ document <$> all_issues = ["lease.docx"; "memo.docx"]
    ∧ Forall (λ x, ∃ p, p ∈ [lease; memo] ∧ document x = name p) all_issues.
Proof.
  destruct (gather_loop example_env [lease; memo] []) as [e|all_issues] eqn:Hg.
  - exfalso. vm_compute in Hg. discriminate Hg.
  - exists all_issues. split; [reflexivity|]. split.
    + vm_compute in Hg. injection Hg as <-. reflexivity.
    + exact (batch_issues_name_uploads _ _ _ Hg).
Defined.

End ExportMore.

(** ** More on the checklist and the citations *)

Section ChecklistMore.
Import app.

(** X20: the two lists of the checklist count up to the required list; no
    document is missing exactly when every required label is detected, and
    none is present exactly when no required label is detected. *)
Theorem checklist_counts (required detected : list string) :
  length (present required detected) + length (missing required detected)
  = length required
  ∧ (missing required detected = [] ↔ ∀ r, r ∈ required → r ∈ detected)
  ∧ (present required detected = [] ↔ ∀ r, r ∈ required → r ∉ detected).
Proof.
  unfold present, missing. split.
  - rewrite <- length_app. apply Permutation_length, filter_app_complement.
  - split.
    + induction required as [|x required IH]; [by split; [intros _ r ?%elem_of_nil|]|].
      destruct (decide (x ∈ detected)) as [Hx|Hx].
      * rewrite filter_cons_False by tauto. rewrite IH. split.
        -- intros H r [->|Hr]%elem_of_cons; auto.
        -- intros H r Hr. by apply H, list_elem_of_further.
      * rewrite filter_cons_True by done. split; [done|].
        intros H. destruct Hx. apply H, list_elem_of_here.
    + induction required as [|x required IH]; [by split; [intros _ r ?%elem_of_nil|]|].
      destruct (decide (x ∈ detected)) as [Hx|Hx].
      * rewrite filter_cons_True by done. split; [done|].
        intros H. by destruct (H x (list_elem_of_here _ _)).
      * rewrite filter_cons_False by done. rewrite IH. split.
        -- intros H r [->|Hr]%elem_of_cons; auto.
        -- intros H r Hr. by apply H, list_elem_of_further.
Qed.

Lemma filter_ext_elem {A} (P Q : A → Prop) `{!∀ x, Decision (P x)}
    `{!∀ x, Decision (Q x)} (l : list A) :
  (∀ x, x ∈ l → P x ↔ Q x) → filter P l = filter Q l.
Proof.
  induction l as [|x l IH]; intros Hext; [done|].
  assert (Hl : filter P l = filter Q l).
  { apply IH. intros y Hy. by apply Hext, list_elem_of_further. }
  pose proof (Hext x (list_elem_of_here _ _)) as Hx.
  destruct (decide (P x)) as [HP|HP].
  - rewrite !filter_cons_True by tauto. by rewrite Hl.
  - rewrite !filter_cons_False by tauto. done.
Qed.

(** X21: a detected label that is not on the required list changes neither
    the present nor the missing documents; so a document classified as
    Unknown or as Commercial Agreement never counts for the incorporation
    checklist. *)
Theorem label_outside_checklist_ignored (required detected : list string)
    (label : string) :
  label ∉ required →
  present required (label :: detected) = present required detected
  ∧ missing required (label :: detected) = missing required detected.
Proof.
  intros Hout. unfold present, missing.
  split; apply filter_ext_elem; intros r Hr; rewrite elem_of_cons.
  - split; [|tauto]. by intros [->|?].
  - split; [tauto|]. intros H [->|?]; [done|by apply H].
Qed.

Lemma label_outside_checklist_ignored_witness :
  ("Unknown" ∉ adgm_checklist.COMPANY_INCORPORATION_CHECKLIST)
  ∧ present adgm_checklist.COMPANY_INCORPORATION_CHECKLIST
      ["Unknown"; "UBO Declaration Form"]
    = present adgm_checklist.COMPANY_INCORPORATION_CHECKLIST ["UBO Declaration Form"].
Proof.
  assert (Hout : "Unknown" ∉ adgm_checklist.COMPANY_INCORPORATION_CHECKLIST).
  { intros Hin. unfold adgm_checklist.COMPANY_INCORPORATION_CHECKLIST in Hin.
    repeat (apply elem_of_cons in Hin as [Hin|Hin]; [discriminate Hin|]).
    by apply elem_of_nil in Hin. }
  split; [exact Hout|].
  exact (proj1 (label_outside_checklist_ignored _ ["UBO Declaration Form"] _ Hout)).
Defined.

End ChecklistMore.

Section CitationMore.
Import PyStr docx docx_utils app Spec.

(** X22: the only citation an issue of a document carries is the one of the
    jurisdiction rule: an issue either has no citation key and gets no
    caption, or has the key "companies_regulation_jurisdiction", sits on a
    paragraph, and gets the caption of Art. 6; "ubo_regulation" is never
    cited. *)
Theorem only_jurisdiction_citation (paragraphs : list string) (filename : string)
    (check_adgm : bool) :
  Forall (λ x, (citation_key x = None ∧ citation_caption x = None)
               ∨ (citation_key x = Some "companies_regulation_jurisdiction"
                  ∧ citation_caption x
                    = Some "Citation: ADGM Companies Regulations 2020, Art. 6"
                  ∧ section x ≠ "End of Document"))
         (summarize_issues paragraphs filename check_adgm).
Proof.
  rewrite summarize_issues_eq. apply Forall_app. split.
  - apply paragraph_loop_Forall; intros idx p.
    + rewrite check_jurisdiction_paragraph_eq.
      destruct (_ || _), (negb _ && _); simpl;
        repeat (apply Forall_cons; split;
                [right; split; [done|]; split; [reflexivity|discriminate]|]);
        apply Forall_nil_2.
    + apply Forall_fmap, Forall_true. intros r. by left.
  - apply Forall_fmap, Forall_true. intros r. by left.
Qed.

End CitationMore.
